(** * GPS Data Generation: radius-based price-tier proportions

    A shallow embedding of the notebook [modeling/GPS Data Generation]:
    the pandas frames it works on, the two proportion functions
    ([dollar_rating], [radius_dollar_proportion]), the frame of the sampled
    points and the loops that fill the per-radius metrics and join the
    demographics.

    Conventions.
    - A Python number (an [int] or a finite [float]) is represented by the
      rational it denotes; [round64] is the rounding every float operation
      applies to its exact result.
    - A pandas frame is the list of its rows, each with its index label.
    - A raised exception is a value of [result]. *)

From Stdlib Require Import ZArith QArith Qabs List String Bool Lia Lqa.
From Stdlib Require Import Floats.
From Stdlib Require Import Ascii.
Import ListNotations.

Local Open Scope Z_scope.

(* ================================================================== *)
(** ** Exceptions *)

Inductive exn : Type :=
| KeyError
| TypeError
| ValueError
| IndexError
| AttributeError
| ZeroDivisionError.

Inductive result (A : Type) : Type :=
| Ok (a : A)
| Raise (e : exn).

Arguments Ok {A} a.
Arguments Raise {A} e.

Definition bind {A B : Type} (r : result A) (k : A -> result B) : result B :=
  match r with
  | Ok a => k a
  | Raise e => Raise e
  end.

Notation "x <- r ;; k" := (bind r (fun x => k))
  (at level 61, r at next level, right associativity).

(* ================================================================== *)
(** ** Python floats

    [round64 q] is [q] rounded to the nearest number with a 53-bit
    significand, ties to even: the IEEE-754 binary64 rounding wherever the
    result is normal, which covers every quotient and sum of this notebook
    (quotients of row counts and sums of at most four of them). *)

Module Float64.

(** [num / den] rounded to the nearest integer, ties to even ([0 < den]). *)
Definition rne_div (num den : Z) : Z :=
  let q := num / den in
  let r := num mod den in
  match 2 * r ?= den with
  | Lt => q
  | Gt => q + 1
  | Eq => if Z.even q then q else q + 1
  end.

(** [m < n * 2^e], for an exponent of either sign. *)
Definition below_pow2 (m n e : Z) : bool :=
  if 0 <=? e then m <? n * 2 ^ e else m * 2 ^ (- e) <? n.

(** The binary exponent of [m / n]: [2^e <= m / n < 2^(e+1)]
    ([0 < m], [0 < n]). *)
Definition exponent (m n : Z) : Z :=
  let e := Z.log2 m - Z.log2 n in
  if below_pow2 m n e then e - 1 else e.

(** The significand of [m / n] on 53 bits: [m / n * 2^k] rounded to an
    integer, where [k = 52 - exponent m n]. *)
Definition significand (m n k : Z) : Z :=
  if 0 <=? k then rne_div (m * 2 ^ k) n else rne_div m (n * 2 ^ (- k)).

(** [M * 2^(-k)] as a rational. *)
Definition scale (M k : Z) : Q :=
  if 0 <=? k then M # Z.to_pos (2 ^ k) else (M * 2 ^ (- k)) # 1.

Definition round_pos (m n : Z) : Q :=
  let k := 52 - exponent m n in
  scale (significand m n k) k.

Definition round64 (q : Q) : Q :=
  match Qnum q with
  | 0 => 0%Q
  | Zpos m => round_pos (Zpos m) (Zpos (Qden q))
  | Zneg m => Qopp (round_pos (Zpos m) (Zpos (Qden q)))
  end.

(** The value of a finite kernel float, to compare [round64] with the
    kernel's binary64 arithmetic. *)
Definition float_value (f : float) : option Q :=
  match Prim2SF f with
  | S754_zero _ => Some 0%Q
  | S754_finite s m e =>
      let z := if s then Zneg m else Zpos m in
      Some (Qred (if 0 <=? e then (z * 2 ^ e) # 1 else z # Z.to_pos (2 ^ (- e))))
  | _ => None
  end.

(** The kernel's quotient and sum, for the comparison. *)
Definition float_of_count (c : nat) : float :=
  PrimFloat.of_uint63 (Uint63.of_Z (Z.of_nat c)).

Definition float_quotient (c n : nat) : float :=
  PrimFloat.div (float_of_count c) (float_of_count n).

Definition same_value (f : float) (q : Q) : bool :=
  match float_value f with
  | Some v => Qeq_bool v q
  | None => false
  end.

End Float64.

Import Float64.

(** Python's [a / b] on two [int]s: the correctly rounded quotient, or
    [ZeroDivisionError]. *)
Definition py_truediv (a b : Z) : result Q :=
  if b =? 0 then Raise ZeroDivisionError
  else Ok (round64 (Qdiv (inject_Z a) (inject_Z b))).

(** Python's [x + y] on two floats. *)
Definition py_add (x y : Q) : Q := round64 (Qplus x y).

(** Python's [sum(xs)]: left to right from [0]. *)
Definition py_sum (xs : list Q) : Q := fold_left py_add xs 0%Q.

(* ================================================================== *)
(** ** pandas frames *)

Section Frames.

Context {R : Type}.

(** A frame: its rows in order, each with its index label. *)
Definition frame : Type := list (Z * R).

Definition shape0 (df : frame) : nat := List.length df.

Definition index (df : frame) : list Z := map fst df.

Definition values (df : frame) : list R := map snd df.

(** The frame [read_csv] builds and [reset_index] leaves: labels
    [0 .. n-1] in order. *)
Definition range_frame (rows : list R) : frame :=
  combine (map Z.of_nat (seq 0 (List.length rows))) rows.

(** Rows labelled [k], [k+1], ...: the tails of a [range_frame]. *)
Definition labelled (k : nat) (rows : list R) : frame :=
  combine (map Z.of_nat (seq k (List.length rows))) rows.

(** [df[df[col] == v]]: the rows a boolean mask keeps. *)
Definition mask (p : R -> bool) (df : frame) : frame :=
  filter (fun lr => p (snd lr)) df.

(** [df.loc[i]]: the rows labelled [i]. *)
Definition loc (df : frame) (i : Z) : frame :=
  filter (fun lr => fst lr =? i) df.

(** [float(df.loc[i, [col]])]: [KeyError] when no row is labelled [i],
    [TypeError] when several are ([float] of a frame). *)
Definition loc_float {A : Type} (df : frame) (i : Z) (col : R -> A) : result A :=
  match loc df i with
  | [] => Raise KeyError
  | [lr] => Ok (col (snd lr))
  | _ => Raise TypeError
  end.

(** [df.loc[i, [col]].item()]: a frame has no [item]. *)
Definition loc_item {A : Type} (df : frame) (i : Z) (col : R -> A) : result A :=
  match loc df i with
  | [] => Raise KeyError
  | [lr] => Ok (col (snd lr))
  | _ => Raise AttributeError
  end.

(** [df[col].item()]: the only element of a column of length one. *)
Definition item {A : Type} (df : frame) (col : R -> A) : result A :=
  match df with
  | [lr] => Ok (col (snd lr))
  | _ => Raise ValueError
  end.

(** [df.iloc[positions]]: rows by position. *)
Fixpoint iloc (df : frame) (positions : list nat) : result frame :=
  match positions with
  | [] => Ok []
  | p :: rest =>
      match nth_error df p with
      | None => Raise IndexError
      | Some lr => rows <- iloc df rest ;; Ok (lr :: rows)
      end
  end.

(** [df.loc[ls, [col]] = v]: every row whose label is in [ls] is
    updated, in place. *)
Definition set_loc (df : frame) (ls : list Z) (upd : R -> R) : frame :=
  map (fun lr => if existsb (Z.eqb (fst lr)) ls then (fst lr, upd (snd lr)) else lr) df.

(** The rows, with the one at position [i] updated. *)
Fixpoint upd_at (i : nat) (upd : R -> R) (rows : list R) : list R :=
  match rows, i with
  | [], _ => []
  | r :: rest, O => upd r :: rest
  | r :: rest, S i' => r :: upd_at i' upd rest
  end.

End Frames.

Arguments frame R : clear implicits.

(* ================================================================== *)
(** ** The notebook's tables *)

(** The price tiers the frames have a column for: [range(1, 5)]. *)
Inductive tier : Type := Tier1 | Tier2 | Tier3 | Tier4.

Definition tier_value (t : tier) : Z :=
  match t with Tier1 => 1 | Tier2 => 2 | Tier3 => 3 | Tier4 => 4 end.

Definition tier_eqb (a b : tier) : bool := tier_value a =? tier_value b.

Definition tiers : list tier := [Tier1; Tier2; Tier3; Tier4].

(** The two search radii, [[0.5, 1.0]]. *)
Inductive radius : Type := HalfMile | OneMile.

Definition radius_miles (r : radius) : Q :=
  match r with HalfMile => 1 # 2 | OneMile => 1 end.

Definition radius_eqb (a b : radius) : bool :=
  match a, b with
  | HalfMile, HalfMile | OneMile, OneMile => true
  | _, _ => false
  end.

Definition radii : list radius := [HalfMile; OneMile].

(** A (latitude, longitude) pair. *)
Definition coordinate : Type := (Q * Q)%type.

(** A row of [yelp]: the neighbourhood ([cra]), the price tier and the
    parsed coordinates of a business. *)
Record yelp_row : Type := mk_yelp {
  cra : string;
  price : Z;
  latitude : Q;
  longitude : Q
}.

(** A row of [seattle_rent], with its four ["{i} dollar"] columns. *)
Record seattle_row : Type := mk_seattle {
  neighborhood : string;
  median_rent : Z;
  median_home_value : Z;
  median_income : Z;
  dollar : tier -> Q
}.

Definition set_dollar (t : tier) (v : Q) (r : seattle_row) : seattle_row :=
  {| neighborhood := neighborhood r;
     median_rent := median_rent r;
     median_home_value := median_home_value r;
     median_income := median_income r;
     dollar := fun t' => if tier_eqb t' t then v else dollar r t' |}.

(** A row of [gps_df], with its eight ["{radius}mi {i} dollar"] columns and
    the three demographic columns. *)
Record gps_row : Type := mk_gps {
  gps_latitude : Q;
  gps_longitude : Q;
  gps_neighborhood : string;
  metric : radius -> tier -> Q;
  gps_median_income : Z;
  gps_median_rent : Z;
  gps_median_home_value : Z
}.

Definition set_metric (r : radius) (t : tier) (v : Q) (g : gps_row) : gps_row :=
  {| gps_latitude := gps_latitude g;
     gps_longitude := gps_longitude g;
     gps_neighborhood := gps_neighborhood g;
     metric := fun r' t' => if radius_eqb r' r && tier_eqb t' t then v else metric g r' t';
     gps_median_income := gps_median_income g;
     gps_median_rent := gps_median_rent g;
     gps_median_home_value := gps_median_home_value g |}.

Definition set_demographics (income rent home : Z) (g : gps_row) : gps_row :=
  {| gps_latitude := gps_latitude g;
     gps_longitude := gps_longitude g;
     gps_neighborhood := gps_neighborhood g;
     metric := metric g;
     gps_median_income := income;
     gps_median_rent := rent;
     gps_median_home_value := home |}.

(** The number of records of a tier. *)
Definition tier_count (dollar_tier : Z) (rows : list yelp_row) : nat :=
  List.length (filter (fun r => price r =? dollar_tier) rows).

(* ================================================================== *)
(** ** [dollar_rating] *)

(** The proportion [dollar_rating] computes for a neighbourhood. *)
Definition hood_proportion (yelp_df : frame yelp_row) (hood : string) (dollar_tier : Z)
  : result Q :=
  let yelp_hood := mask (fun r => String.eqb (cra r) hood) yelp_df in
  if Nat.eqb (shape0 (mask (fun r => String.eqb (cra r) hood) yelp_df)) 0
  then Ok 0%Q
  else
    let num_businesses := shape0 (mask (fun r => String.eqb (cra r) hood) yelp_df) in
    py_truediv
      (Z.of_nat (shape0 (mask (fun r => price r =? dollar_tier) yelp_hood)))
      (Z.of_nat num_businesses).

(** The call mutates [seattle_df] in place and only reads [yelp_df]: the
    result is the content of the two frames after the call. *)
Definition dollar_rating (seattle_df : frame seattle_row) (yelp_df : frame yelp_row)
    (hood : string) (dollar_tier : tier)
  : result (frame seattle_row * frame yelp_row) :=
  proportion <- hood_proportion yelp_df hood (tier_value dollar_tier) ;;
  let hood_index := index (mask (fun r => String.eqb (neighborhood r) hood) seattle_df) in
  Ok (set_loc seattle_df hood_index (set_dollar dollar_tier proportion), yelp_df).

(* ================================================================== *)
(** ** Loops that mutate a frame

    A [for] loop over a frame that is updated in place: when an iteration
    raises, the loop stops and the frame keeps what was written so far. *)

Inductive outcome (S : Type) : Type :=
| Done (s : S)
| Raised (e : exn) (s : S).

Arguments Done {S} s.
Arguments Raised {S} e s.

(** One statement block: its reads may raise before anything is written. *)
Definition attempt {S : Type} (s : S) (r : result S) : outcome S :=
  match r with
  | Ok s' => Done s'
  | Raise e => Raised e s
  end.

Fixpoint for_each {S A : Type} (xs : list A) (body : A -> S -> outcome S) (s : S)
  : outcome S :=
  match xs with
  | [] => Done s
  | x :: rest =>
      match body x s with
      | Done s' => for_each rest body s'
      | Raised e s' => Raised e s'
      end
  end.

(* ================================================================== *)
(** ** [radius_dollar_proportion] and the metric loop *)

(** The notebook's globals, which a function body could read: the name [d]
    that the import binds, as what [d.distance(a, b).miles] gives (geopy
    raises [ValueError] on a latitude outside [[-90, 90]]), and the three
    frames. *)
Record notebook : Type := mk_notebook {
  nb_d : coordinate -> coordinate -> result Q;
  nb_yelp : frame yelp_row;
  nb_seattle_rent : frame seattle_row;
  nb_gps_df : frame gps_row
}.

Section Radius.

(** [d.distance(a, b).miles] of geopy, between two points it accepts. *)
Variable distance : coordinate -> coordinate -> Q.

(** The loop that collects the rows within [radius] of [location]:
    [todo] holds the values of [i] still to visit. *)
Fixpoint within_loop (location : coordinate) (df : frame yelp_row) (radius : Q)
    (todo : list nat) (indices : list nat) : result (list nat) :=
  match todo with
  | [] => Ok indices
  | i :: rest =>
      lat <- loc_float df (Z.of_nat i) latitude ;;
      long <- loc_float df (Z.of_nat i) longitude ;;
      let coordinates := (lat, long) in
      if Qle_bool (distance location coordinates) radius
      then within_loop location df radius rest (indices ++ [i])
      else within_loop location df radius rest indices
  end.

(** The test of the loop on a row, and on the row at a position. *)
Definition in_radius (location : coordinate) (radius : Q) (r : yelp_row) : bool :=
  Qle_bool (distance location (latitude r, longitude r)) radius.

Definition selected (location : coordinate) (rows : list yelp_row) (radius : Q) (i : nat)
  : bool :=
  match nth_error rows i with
  | Some r => in_radius location radius r
  | None => false
  end.

(** The records within [radius] of [location]. *)
Definition nearby (location : coordinate) (rows : list yelp_row) (radius : Q)
  : list yelp_row :=
  filter (in_radius location radius) rows.

(** The distance filter: the positions selected. *)
Definition within (location : coordinate) (df : frame yelp_row) (radius : Q)
  : result (list nat) :=
  within_loop location df radius (seq 0 (shape0 df)) [].

(** The proportion over the rows selected. *)
Definition proportion_of (df : frame yelp_row) (indices : list nat) (dollar_tier : Z)
  : result Q :=
  if Nat.eqb (List.length indices) 0
  then Ok 0%Q
  else
    surrounding_businesses <- iloc df indices ;;
    let total_businesses := shape0 surrounding_businesses in
    py_truediv
      (Z.of_nat (shape0 (mask (fun r => price r =? dollar_tier) surrounding_businesses)))
      (Z.of_nat total_businesses).

(** The call: the loop over [range(df.shape[0])], then the proportion over
    [df.iloc[indices]]. *)
Definition radius_dollar_proportion (location : coordinate) (df : frame yelp_row)
    (radius : Q) (dollar_tier : Z) : result Q :=
  indices <- within location df radius ;;
  proportion_of df indices dollar_tier.

(** *** The metric loop *)

(** One assignment [gps_df.loc[i, [f"{radius}mi {dollar} dollar"]] = ...]. *)
Definition populate_cell (yelp : frame yelp_row) (i : nat) (dollar : tier) (r : radius)
    (gps_df : frame gps_row) : outcome (frame gps_row) :=
  attempt gps_df
    (lat <- loc_float gps_df (Z.of_nat i) gps_latitude ;;
     long <- loc_float gps_df (Z.of_nat i) gps_longitude ;;
     let location := (lat, long) in
     proportion <- radius_dollar_proportion location yelp (radius_miles r) (tier_value dollar) ;;
     Ok (set_loc gps_df [Z.of_nat i] (set_metric r dollar proportion))).

Definition populate_metrics (yelp : frame yelp_row) (gps_df : frame gps_row)
  : outcome (frame gps_row) :=
  for_each (seq 0 (shape0 gps_df))
    (fun i => for_each tiers (fun dollar => for_each radii (populate_cell yelp i dollar)))
    gps_df.

(** What the loop leaves in a row: the value of each of the eight calls. *)
Definition proportion_value (location : coordinate) (df : frame yelp_row) (radius : Q)
    (dollar_tier : Z) : Q :=
  match radius_dollar_proportion location df radius dollar_tier with
  | Ok v => v
  | Raise _ => 0%Q
  end.

Definition fill_cell (yelp : frame yelp_row) (dollar : tier) (r : radius) (g : gps_row)
  : gps_row :=
  set_metric r dollar
    (proportion_value (gps_latitude g, gps_longitude g) yelp (radius_miles r)
       (tier_value dollar))
    g.

Definition fill_row (yelp : frame yelp_row) (g : gps_row) : gps_row :=
  fold_left (fun g dollar => fold_left (fun g r => fill_cell yelp dollar r g) radii g)
    tiers g.

End Radius.

(* ================================================================== *)
(** ** [radius_dollar_proportion] with the errors of geopy

    The same body with [d.distance(a, b).miles] as a call that may raise. *)

Section Geopy.

Variable miles : coordinate -> coordinate -> result Q.

Fixpoint within_loop_checked (location : coordinate) (df : frame yelp_row) (radius : Q)
    (todo : list nat) (indices : list nat) : result (list nat) :=
  match todo with
  | [] => Ok indices
  | i :: rest =>
      lat <- loc_float df (Z.of_nat i) latitude ;;
      long <- loc_float df (Z.of_nat i) longitude ;;
      let coordinates := (lat, long) in
      apart <- miles location coordinates ;;
      if Qle_bool apart radius
      then within_loop_checked location df radius rest (indices ++ [i])
      else within_loop_checked location df radius rest indices
  end.

Definition radius_dollar_proportion_checked (location : coordinate) (df : frame yelp_row)
    (radius : Q) (dollar_tier : Z) : result Q :=
  indices <- within_loop_checked location df radius (seq 0 (shape0 df)) [] ;;
  proportion_of df indices dollar_tier.

End Geopy.

(** The distance of a call that returns; [0] stands for a call that raises. *)
Definition miles_value (miles : coordinate -> coordinate -> result Q) (a b : coordinate) : Q :=
  match miles a b with
  | Ok apart => apart
  | Raise _ => 0%Q
  end.

(** *** The same call, one statement at a time

    A configuration pairs the notebook's globals with the state of the
    call: the loop counter and the indices gathered, or how it ended. The
    distance is the one the global [d] gives in the configuration. *)
Inductive call_state : Type :=
| Looping (i : nat) (indices : list nat)
| Returned (proportion : Q)
| Failed (e : exn).

Inductive rdp_step (location : coordinate) (df : frame yelp_row) (radius : Q)
    (dollar_tier : Z) : notebook * call_state -> notebook * call_state -> Prop :=
| step_append : forall nb i indices lat long apart,
    (i < shape0 df)%nat ->
    loc_float df (Z.of_nat i) latitude = Ok lat ->
    loc_float df (Z.of_nat i) longitude = Ok long ->
    nb_d nb location (lat, long) = Ok apart ->
    Qle_bool apart radius = true ->
    rdp_step location df radius dollar_tier
      (nb, Looping i indices) (nb, Looping (S i) (indices ++ [i]))
| step_skip : forall nb i indices lat long apart,
    (i < shape0 df)%nat ->
    loc_float df (Z.of_nat i) latitude = Ok lat ->
    loc_float df (Z.of_nat i) longitude = Ok long ->
    nb_d nb location (lat, long) = Ok apart ->
    Qle_bool apart radius = false ->
    rdp_step location df radius dollar_tier
      (nb, Looping i indices) (nb, Looping (S i) indices)
| step_latitude_raises : forall nb i indices e,
    (i < shape0 df)%nat ->
    loc_float df (Z.of_nat i) latitude = Raise e ->
    rdp_step location df radius dollar_tier
      (nb, Looping i indices) (nb, Failed e)
| step_longitude_raises : forall nb i indices lat e,
    (i < shape0 df)%nat ->
    loc_float df (Z.of_nat i) latitude = Ok lat ->
    loc_float df (Z.of_nat i) longitude = Raise e ->
    rdp_step location df radius dollar_tier
      (nb, Looping i indices) (nb, Failed e)
| step_distance_raises : forall nb i indices lat long e,
    (i < shape0 df)%nat ->
    loc_float df (Z.of_nat i) latitude = Ok lat ->
    loc_float df (Z.of_nat i) longitude = Ok long ->
    nb_d nb location (lat, long) = Raise e ->
    rdp_step location df radius dollar_tier
      (nb, Looping i indices) (nb, Failed e)
| step_return : forall nb i indices proportion,
    (shape0 df <= i)%nat ->
    proportion_of df indices dollar_tier = Ok proportion ->
    rdp_step location df radius dollar_tier
      (nb, Looping i indices) (nb, Returned proportion)
| step_proportion_raises : forall nb i indices e,
    (shape0 df <= i)%nat ->
    proportion_of df indices dollar_tier = Raise e ->
    rdp_step location df radius dollar_tier
      (nb, Looping i indices) (nb, Failed e).

Inductive rdp_steps (location : coordinate) (df : frame yelp_row) (radius : Q)
    (dollar_tier : Z) : notebook * call_state -> notebook * call_state -> Prop :=
| steps_refl : forall c, rdp_steps location df radius dollar_tier c c
| steps_cons : forall c1 c2 c3,
    rdp_step location df radius dollar_tier c1 c2 ->
    rdp_steps location df radius dollar_tier c2 c3 ->
    rdp_steps location df radius dollar_tier c1 c3.

Definition final_state (r : result Q) : call_state :=
  match r with
  | Ok v => Returned v
  | Raise e => Failed e
  end.

(** A run of the call in the notebook state [nb], ending with [r] and the
    notebook state [nb']. *)
Definition rdp_run (nb : notebook) (location : coordinate) (df : frame yelp_row)
    (radius : Q) (dollar_tier : Z) (r : result Q) (nb' : notebook) : Prop :=
  rdp_steps location df radius dollar_tier (nb, Looping 0 []) (nb', final_state r).

(** A point with another neighbourhood, a business with another one. *)
Definition with_neighborhood (hood : string) (g : gps_row) : gps_row :=
  {| gps_latitude := gps_latitude g;
     gps_longitude := gps_longitude g;
     gps_neighborhood := hood;
     metric := metric g;
     gps_median_income := gps_median_income g;
     gps_median_rent := gps_median_rent g;
     gps_median_home_value := gps_median_home_value g |}.

Definition with_cra (hood : string) (r : yelp_row) : yelp_row :=
  {| cra := hood; price := price r; latitude := latitude r; longitude := longitude r |}.

(* ================================================================== *)
(** ** The demographics join and the export *)

(** One iteration of the join: three single-value extractions, then three
    assignments. *)
Definition join_row (seattle_rent : frame seattle_row) (i : nat) (gps_df : frame gps_row)
  : outcome (frame gps_row) :=
  attempt gps_df
    (hood <- loc_item gps_df (Z.of_nat i) gps_neighborhood ;;
     let matching := mask (fun r => String.eqb (neighborhood r) hood) seattle_rent in
     income <- item matching median_income ;;
     rent <- item matching median_rent ;;
     home <- item matching median_home_value ;;
     Ok (set_loc gps_df [Z.of_nat i] (set_demographics income rent home))).

Definition join_demographics (seattle_rent : frame seattle_row) (gps_df : frame gps_row)
  : outcome (frame gps_row) :=
  for_each (seq 0 (shape0 gps_df)) (join_row seattle_rent) gps_df.

(** [gps_df.to_csv(..., index = False)]: the rows written. *)
Definition to_csv (gps_df : frame gps_row) : list gps_row := values gps_df.

(** The join cell followed by the export cell: the export runs only when the
    join has not raised. *)
Definition join_and_export (seattle_rent : frame seattle_row) (gps_df : frame gps_row)
  : outcome (frame gps_row) * option (list gps_row) :=
  match join_demographics seattle_rent gps_df with
  | Done g => (Done g, Some (to_csv g))
  | Raised e g => (Raised e g, None)
  end.

(* ================================================================== *)
(** ** The frame of the sampled points *)

(** The dictionary of the three lists that the generation loop fills. *)
Record gps_dict : Type := mk_gps_dict {
  dict_latitude : list Q;
  dict_longitude : list Q;
  dict_neighborhood : list string
}.

(** [pd.DataFrame(gps_dict)] on three lists of one length, then the points
    outside every neighbourhood are dropped, the index is reset and the
    metric and demographic columns are filled with [0]. *)
Definition gps_frame (gd : gps_dict) : frame gps_row :=
  let points := combine (combine (dict_latitude gd) (dict_longitude gd)) (dict_neighborhood gd) in
  let located := filter (fun p => negb (String.eqb (snd p) "Not Found")) points in
  range_frame
    (map (fun p => mk_gps (fst (fst p)) (snd (fst p)) (snd p) (fun _ _ => 0%Q) 0 0 0) located).

(* ================================================================== *)
(** ** The neighbourhood check and the cleaning of a frame *)

(** [series.unique()]: the values, in the order of their first appearance. *)
Fixpoint unique (xs : list string) : list string :=
  match xs with
  | [] => []
  | x :: rest => x :: filter (fun y => negb (String.eqb y x)) (unique rest)
  end.

Section Cleaning.

Context {Y S : Type}.

(** The columns [yelp["cra"]] and [seattle_rent["neighborhood"]]. *)
Variable cra_of : Y -> string.
Variable neighborhood_of : S -> string.

(** The check before the cleaning: the neighbourhoods of [yelp] that
    [seattle_rent] does not have, in the order they are printed. *)
Definition unmatched (yelp : frame Y) (seattle_rent : frame S) : list string :=
  let y := unique (map cra_of (values yelp)) in
  let s := unique (map neighborhood_of (values seattle_rent)) in
  filter (fun x => negb (existsb (String.eqb x) s)) y.

(** [df = df[df[col] != "Not Found"].copy()] then
    [df.reset_index(inplace = True)]: the rows kept, under the default
    index again (the column that keeps the old labels is left out). *)
Definition drop_not_found (df : frame Y) : frame Y :=
  range_frame (values (mask (fun r => negb (String.eqb (cra_of r) "Not Found")) df)).

End Cleaning.

(* ================================================================== *)
(** ** The coordinates of [yelp] *)

(** A cell of the two new columns: the filler [0] or the text cut out of
    the coordinates. *)
Inductive pycell : Type :=
| PyInt (z : Z)
| PyStr (s : string).

(** A row of [yelp] before the casts: [coordinates] is the text
    ["[lat, long]"]. *)
Record raw_yelp_row : Type := mk_raw_yelp {
  raw_cra : string;
  raw_price : Z;
  coordinates : string;
  raw_latitude : pycell;
  raw_longitude : pycell
}.

Definition set_raw_latitude (v : pycell) (r : raw_yelp_row) : raw_yelp_row :=
  {| raw_cra := raw_cra r; raw_price := raw_price r; coordinates := coordinates r;
     raw_latitude := v; raw_longitude := raw_longitude r |}.

Definition set_raw_longitude (v : pycell) (r : raw_yelp_row) : raw_yelp_row :=
  {| raw_cra := raw_cra r; raw_price := raw_price r; coordinates := coordinates r;
     raw_latitude := raw_latitude r; raw_longitude := v |}.

(** [yelp["latitude"] = filler; yelp["longitude"] = filler]. *)
Definition add_coordinate_columns (yelp : frame raw_yelp_row) : frame raw_yelp_row :=
  map (fun lr => (fst lr, set_raw_longitude (PyInt 0) (set_raw_latitude (PyInt 0) (snd lr))))
    yelp.

(** [s.split(sep)] for a separator of one character. *)
Fixpoint py_split (sep : ascii) (s : string) : list string :=
  match s with
  | EmptyString => [EmptyString]
  | String a rest =>
      if Ascii.eqb a sep then EmptyString :: py_split sep rest
      else
        match py_split sep rest with
        | piece :: pieces => String a piece :: pieces
        | [] => [String a EmptyString]
        end
  end.

(** [s.replace(c, "")] for one character [c]. *)
Fixpoint py_remove (c : ascii) (s : string) : string :=
  match s with
  | EmptyString => EmptyString
  | String a rest =>
      if Ascii.eqb a c then py_remove c rest else String a (py_remove c rest)
  end.

(** [l[i]] on a list. *)
Definition py_getitem {A : Type} (l : list A) (i : nat) : result A :=
  match nth_error l i with
  | Some x => Ok x
  | None => Raise IndexError
  end.

(** The body of the loop on one text: the two pieces kept. *)
Definition parse_coordinate (coordinate : string) : result (string * string) :=
  let split := py_split "," coordinate in
  first <- py_getitem split 0 ;;
  let lat := py_remove "[" first in
  second <- py_getitem split 1 ;;
  let long := py_remove "]" (py_remove " " second) in
  Ok (lat, long).

(** One iteration: the rows of the global [yelp] that hold this text
    receive its two pieces. *)
Definition separate_step (coordinate : string) (yelp : frame raw_yelp_row)
  : outcome (frame raw_yelp_row) :=
  let index := index (mask (fun r => String.eqb (coordinates r) coordinate) yelp) in
  attempt yelp
    (parsed <- parse_coordinate coordinate ;;
     Ok (set_loc (set_loc yelp index (set_raw_latitude (PyStr (fst parsed))))
           index (set_raw_longitude (PyStr (snd parsed))))).

(** [separate_coordinates(yelp_df)]: the loop runs over the texts of its
    argument and writes in the global [yelp]. *)
Definition separate_coordinates (yelp : frame raw_yelp_row) (yelp_df : frame raw_yelp_row)
  : outcome (frame raw_yelp_row) :=
  for_each (map coordinates (values yelp_df)) separate_step yelp.

Section Casts.

(** [float(s)] on a text. *)
Variable py_float : string -> result Q.

Definition cell_float (c : pycell) : result Q :=
  match c with
  | PyInt z => Ok (inject_Z z)
  | PyStr s => py_float s
  end.

(** [series.astype("float")]: every cell in turn. *)
Fixpoint astype_float (cells : list pycell) : result (list Q) :=
  match cells with
  | [] => Ok []
  | c :: rest => x <- cell_float c ;; xs <- astype_float rest ;; Ok (x :: xs)
  end.

(** The two casts: the latitude column, then the longitude column; the
    frame is then the one the rest of the notebook reads. *)
Definition cast_coordinates (yelp : frame raw_yelp_row) : result (frame yelp_row) :=
  lats <- astype_float (map raw_latitude (values yelp)) ;;
  longs <- astype_float (map raw_longitude (values yelp)) ;;
  Ok (map (fun p => (fst (fst p),
                     mk_yelp (raw_cra (snd (fst p))) (raw_price (snd (fst p)))
                       (fst (snd p)) (snd (snd p))))
        (combine yelp (combine lats longs))).

(** The three cells that build the coordinates: the new columns, the call
    [separate_coordinates(yelp)] and the casts. *)
Definition build_coordinates (yelp : frame raw_yelp_row) : result (frame yelp_row) :=
  match separate_coordinates (add_coordinate_columns yelp) (add_coordinate_columns yelp) with
  | Done separated => cast_coordinates separated
  | Raised e _ => Raise e
  end.

End Casts.

(* ================================================================== *)
(** ** The tier columns of [seattle_rent] *)

(** [seattle_rent[f"{i} dollar"] = filler] for the four tiers. *)
Definition add_dollar_columns (seattle_rent : frame seattle_row) : frame seattle_row :=
  map (fun lr => (fst lr,
                  mk_seattle (neighborhood (snd lr)) (median_rent (snd lr))
                    (median_home_value (snd lr)) (median_income (snd lr)) (fun _ => 0%Q)))
    seattle_rent.

(** One call of the loop, on the frame as it stands. *)
Definition rate_call (yelp : frame yelp_row) (hood : string) (t : tier)
    (seattle_rent : frame seattle_row) : outcome (frame seattle_row) :=
  attempt seattle_rent
    (after <- dollar_rating seattle_rent yelp hood t ;; Ok (fst after)).

(** The loop over the neighbourhoods of the table and the four tiers. *)
Definition rate_neighborhoods (seattle_rent : frame seattle_row) (yelp : frame yelp_row)
  : outcome (frame seattle_row) :=
  let hoods := unique (map neighborhood (values seattle_rent)) in
  for_each hoods (fun hood => for_each tiers (rate_call yelp hood)) seattle_rent.

(* ================================================================== *)
(** ** The whole generation *)

(** The row of a point after the join, when the table has a row for its
    neighbourhood. *)
Definition joined_row (seattle_rent : frame seattle_row) (g : gps_row) : gps_row :=
  match mask (fun r => String.eqb (neighborhood r) (gps_neighborhood g)) seattle_rent with
  | lr :: _ =>
      set_demographics (median_income (snd lr)) (median_rent (snd lr))
        (median_home_value (snd lr)) g
  | [] => g
  end.

Section Generation.

Variable distance : coordinate -> coordinate -> Q.

(** The cells from the frame of the sampled points to the export, run in
    order on the dictionary [gps_dict]: the rows written, or nothing when a
    cell raises. [pd.DataFrame] raises [ValueError] on lists of different
    lengths. *)
Definition generate_dataset (gd : gps_dict) (yelp : frame yelp_row)
    (seattle_rent : frame seattle_row) : option (list gps_row) :=
  if Nat.eqb (List.length (dict_latitude gd)) (List.length (dict_longitude gd))
     && Nat.eqb (List.length (dict_longitude gd)) (List.length (dict_neighborhood gd))
  then
    match populate_metrics distance yelp (gps_frame gd) with
    | Raised _ _ => None
    | Done gps_df => snd (join_and_export seattle_rent gps_df)
    end
  else None.

End Generation.

(* ================================================================== *)
(** ** Row views of the loops *)

(** The value a call of [dollar_rating] writes. *)
Definition hood_value (yelp : frame yelp_row) (hood : string) (t : tier) : Q :=
  match hood_proportion yelp hood (tier_value t) with
  | Ok v => v
  | Raise _ => 0%Q
  end.

(** What a call of [dollar_rating] does to a row of a frame with distinct
    labels. *)
Definition rate_row (yelp : frame yelp_row) (hood : string) (t : tier) (r : seattle_row)
  : seattle_row :=
  if String.eqb (neighborhood r) hood then set_dollar t (hood_value yelp hood t) r else r.

(** [c in s] for a character [c]. *)
Fixpoint contains (c : ascii) (s : string) : bool :=
  match s with
  | EmptyString => false
  | String a rest => Ascii.eqb a c || contains c rest
  end.

(** The two pieces of a text, when it has a comma. *)
Definition pieces_of (coordinate : string) : string * string :=
  match parse_coordinate coordinate with
  | Ok p => p
  | Raise _ => (EmptyString, EmptyString)
  end.

(** What an iteration of [separate_coordinates] does to a row of a frame
    with distinct labels. *)
Definition separate_row (coordinate : string) (r : raw_yelp_row) : raw_yelp_row :=
  if String.eqb (coordinates r) coordinate
  then set_raw_longitude (PyStr (snd (pieces_of coordinate)))
         (set_raw_latitude (PyStr (fst (pieces_of coordinate))) r)
  else r.

(* ================================================================== *)
(** ** Sample data *)

Module Sample.

Local Open Scope string_scope.

(** A flat stand-in for the geodesic distance: miles along the two axes. *)
Definition taxicab (a b : coordinate) : Q :=
  (Qabs (fst a - fst b) + Qabs (snd a - snd b))%Q.

Definition center : coordinate := (0%Q, 0%Q).

Definition far_away : coordinate := (45%Q, 45%Q).

(** Two tier-2 businesses 0.3 and 0.8 miles from [center] and a tier-1
    business 2 miles from it. *)
Definition businesses : list yelp_row :=
  [ mk_yelp "Ballard" 2 (3 # 10) 0;
    mk_yelp "Ballard" 2 (8 # 10) 0;
    mk_yelp "Interbay" 1 2 0 ].

(** Three neighbourhoods, the last one without a business. *)
Definition demographics : list seattle_row :=
  [ mk_seattle "Ballard" 1542 543200 79162 (fun _ => 0%Q);
    mk_seattle "Interbay" 1490 571300 74679 (fun _ => 0%Q);
    mk_seattle "Montlake" 1723 821250 132573 (fun _ => 0%Q) ].

(** Thirty-five businesses at [center]: eight of tier 2, nine of tier 3
    and eighteen of tier 4. *)
Definition thirty_five : list yelp_row :=
  repeat (mk_yelp "Ballard" 2 0 0) 8
  ++ repeat (mk_yelp "Ballard" 3 0 0) 9
  ++ repeat (mk_yelp "Ballard" 4 0 0) 18.

(** A demographics frame in which two rows share the index label [0]. *)
Definition duplicated_index : frame seattle_row :=
  [ (0, mk_seattle "Ballard" 1542 543200 79162 (fun _ => 0%Q));
    (0, mk_seattle "Interbay" 1490 571300 74679 (fun _ => 0%Q)) ].




(** A distance that refuses a latitude outside [[-90, 90]], as geopy does. *)
Definition taxicab_checked (a b : coordinate) : result Q :=
  if Qle_bool (Qabs (fst a)) 90 && Qle_bool (Qabs (fst b)) 90
  then Ok (taxicab a b) else Raise ValueError.

(** Three sampled points; the last one is assigned to a neighbourhood that
    the demographics table does not have. *)
Definition points : list gps_row :=
  [ mk_gps 0 0 "Ballard" (fun _ _ => 0%Q) 0 0 0;
    mk_gps 1 0 "Interbay" (fun _ _ => 0%Q) 0 0 0;
    mk_gps 2 0 "Fremont" (fun _ _ => 0%Q) 0 0 0 ].

(** Four sampled points as the generation loop leaves them: the second one
    is outside every neighbourhood. *)
Definition sampled : gps_dict :=
  mk_gps_dict [0%Q; 5%Q; 1%Q; 0%Q] [0%Q; 5%Q; 0%Q; 0%Q]
    ["Ballard"; "Not Found"; "Interbay"; "Ballard"].

(** Three businesses before the casts, two of them at the same place. *)
Definition raw_businesses : list raw_yelp_row :=
  [ mk_raw_yelp "Ballard" 2 "[47.6, -122.3]" (PyInt 7) (PyInt 7);
    mk_raw_yelp "Interbay" 1 "[47.5, -122.4]" (PyInt 7) (PyInt 7);
    mk_raw_yelp "Ballard" 3 "[47.6, -122.3]" (PyInt 7) (PyInt 7) ].

(** A stand-in for [float]: the length of the text. *)
Definition text_length (s : string) : result Q :=
  Ok (inject_Z (Z.of_nat (String.length s))).

(** The businesses as loaded: one of them is outside every neighbourhood. *)
Definition loaded_businesses : list yelp_row :=
  businesses ++ [ mk_yelp "Not Found" 2 5 5 ].

End Sample.

(* ================================================================== *)
(** * Properties *)

(** ** The rounding agrees with the kernel's binary64 arithmetic *)

Example round64_third :
  float_value (PrimFloat.div 1 3) = Some (Qred (round64 (1 # 3))).
Proof. vm_compute. reflexivity. Qed.

(** On every quotient [c / n] with [c <= n <= 40], and on every sum of two
    of them with the same [n]. *)
Example round64_agrees_on_small_counts :
  forallb (fun n =>
    forallb (fun c =>
      same_value (float_quotient c n) (round64 (Z.of_nat c # Pos.of_nat n))
      && forallb (fun c' =>
           same_value (PrimFloat.add (float_quotient c n) (float_quotient c' n))
             (round64 (Qplus (round64 (Z.of_nat c # Pos.of_nat n))
                         (round64 (Z.of_nat c' # Pos.of_nat n)))))
           (seq 0 (S n)))
      (seq 0 (S n)))
    (seq 1 40) = true.
Proof. vm_compute. reflexivity. Qed.

(** ** Frames with the default index *)

Section FrameFacts.

Context {R : Type}.

Lemma range_frame_labelled (rows : list R) : range_frame rows = labelled 0 rows.
Proof. reflexivity. Qed.

Lemma labelled_cons (k : nat) (r : R) (rows : list R) :
  labelled k (r :: rows) = (Z.of_nat k, r) :: labelled (S k) rows.
Proof. reflexivity. Qed.

Lemma shape0_labelled (k : nat) (rows : list R) :
  shape0 (labelled k rows) = List.length rows.
Proof.
  unfold shape0, labelled.
  rewrite length_combine, length_map, length_seq. apply Nat.min_id.
Qed.

Lemma values_labelled (k : nat) (rows : list R) : values (labelled k rows) = rows.
Proof.
  revert k. induction rows as [|r rows IH]; intros k; [reflexivity|].
  rewrite labelled_cons. unfold values in *. simpl. now rewrite IH.
Qed.

Lemma index_labelled (k : nat) (rows : list R) :
  index (labelled k rows) = map Z.of_nat (seq k (List.length rows)).
Proof.
  revert k. induction rows as [|r rows IH]; intros k; [reflexivity|].
  rewrite labelled_cons. unfold index in *. simpl. now rewrite IH.
Qed.

Lemma nth_error_labelled (k i : nat) (rows : list R) :
  nth_error (labelled k rows) i =
  option_map (fun r => (Z.of_nat (k + i), r)) (nth_error rows i).
Proof.
  revert k i. induction rows as [|r rows IH]; intros k [|i]; try reflexivity.
  - rewrite labelled_cons. simpl. now rewrite Nat.add_0_r.
  - rewrite labelled_cons. simpl. rewrite IH.
    now replace (S k + i)%nat with (k + S i)%nat by lia.
Qed.

Lemma loc_labelled_below (k j : nat) (rows : list R) :
  (j < k)%nat -> loc (labelled k rows) (Z.of_nat j) = [].
Proof.
  revert k. induction rows as [|r rows IH]; intros k Hlt; [reflexivity|].
  rewrite labelled_cons. unfold loc in *. simpl.
  destruct (Z.eqb_spec (Z.of_nat k) (Z.of_nat j)) as [E|_]; [lia|].
  apply IH. lia.
Qed.

Lemma loc_labelled (k i : nat) (rows : list R) :
  loc (labelled k rows) (Z.of_nat (k + i)) =
  match nth_error rows i with
  | Some r => [(Z.of_nat (k + i), r)]
  | None => []
  end.
Proof.
  revert k i. induction rows as [|r rows IH]; intros k i.
  - now destruct i.
  - rewrite labelled_cons. destruct i as [|i].
    + rewrite Nat.add_0_r. unfold loc. simpl. rewrite Z.eqb_refl.
      fold (loc (labelled (S k) rows) (Z.of_nat k)).
      rewrite loc_labelled_below by lia. reflexivity.
    + unfold loc. simpl.
      destruct (Z.eqb_spec (Z.of_nat k) (Z.of_nat (k + S i))) as [E|_]; [lia|].
      fold (loc (labelled (S k) rows) (Z.of_nat (k + S i))).
      replace (k + S i)%nat with (S k + i)%nat by lia. apply IH.
Qed.

Lemma loc_range_frame (i : nat) (rows : list R) :
  loc (range_frame rows) (Z.of_nat i) =
  match nth_error rows i with
  | Some r => [(Z.of_nat i, r)]
  | None => []
  end.
Proof. rewrite range_frame_labelled. apply (loc_labelled 0 i). Qed.

Lemma loc_float_range_frame {A : Type} (i : nat) (rows : list R) (col : R -> A) (r : R) :
  nth_error rows i = Some r ->
  loc_float (range_frame rows) (Z.of_nat i) col = Ok (col r).
Proof. intros H. unfold loc_float. now rewrite loc_range_frame, H. Qed.

Lemma loc_item_range_frame {A : Type} (i : nat) (rows : list R) (col : R -> A) (r : R) :
  nth_error rows i = Some r ->
  loc_item (range_frame rows) (Z.of_nat i) col = Ok (col r).
Proof. intros H. unfold loc_item. now rewrite loc_range_frame, H. Qed.

Lemma shape0_range_frame (rows : list R) : shape0 (range_frame rows) = List.length rows.
Proof. apply shape0_labelled. Qed.

Lemma values_range_frame (rows : list R) : values (range_frame rows) = rows.
Proof. apply values_labelled. Qed.

Lemma shape0_values (df : frame R) : shape0 df = List.length (values df).
Proof. unfold shape0, values. now rewrite length_map. Qed.

Lemma values_mask (p : R -> bool) (df : frame R) :
  values (mask p df) = filter p (values df).
Proof.
  unfold values, mask. induction df as [|lr df IH]; [reflexivity|].
  simpl. destruct (p (snd lr)); simpl; now rewrite IH.
Qed.

(** [iloc] at valid positions returns the rows found there. *)
Lemma iloc_values (df : frame R) (positions : list nat) :
  Forall (fun p => (p < shape0 df)%nat) positions ->
  exists sel,
    iloc df positions = Ok sel /\
    map Some sel = map (nth_error df) positions.
Proof.
  induction 1 as [|p ps Hp _ IH].
  - exists []. now split.
  - destruct IH as (sel & Hsel & Hmap).
    destruct (nth_error df p) as [lr|] eqn:E.
    + exists (lr :: sel). simpl. rewrite E, Hsel. simpl. split; [reflexivity|].
      now rewrite Hmap.
    + apply nth_error_None in E. unfold shape0 in Hp. lia.
Qed.

End FrameFacts.

(** Filtering positions by the row found there selects the rows that pass. *)
Lemma filter_positions {A : Type} (p : A -> bool) (pre rows : list A) :
  map (nth_error (pre ++ rows))
    (filter (fun i => match nth_error (pre ++ rows) i with
                      | Some r => p r
                      | None => false
                      end)
       (seq (List.length pre) (List.length rows)))
  = map Some (filter p rows).
Proof.
  revert pre. induction rows as [|r rows IH]; intros pre; [reflexivity|].
  cbn [List.length seq filter].
  assert (E : nth_error (pre ++ r :: rows) (List.length pre) = Some r)
    by (rewrite nth_error_app2, Nat.sub_diag by lia; reflexivity).
  rewrite E.
  specialize (IH (pre ++ [r])).
  rewrite <- app_assoc, length_app, Nat.add_comm in IH. cbn [List.length app Nat.add] in IH.
  destruct (p r); cbn [map filter]; rewrite ?E, IH; reflexivity.
Qed.

Lemma map_Some_inj {A : Type} (xs ys : list A) : map Some xs = map Some ys -> xs = ys.
Proof.
  revert ys. induction xs as [|x xs IH]; intros [|y ys] H; try discriminate; [reflexivity|].
  injection H as -> H. f_equal. now apply IH.
Qed.

Lemma iloc_range_filter {R : Type} (p : R -> bool) (rows : list R) :
  exists sb,
    iloc (range_frame rows)
      (filter (fun i => match nth_error rows i with Some r => p r | None => false end)
         (seq 0 (List.length rows))) = Ok sb
    /\ values sb = filter p rows.
Proof.
  set (positions := filter _ _).
  destruct (iloc_values (range_frame rows) positions) as (sb & Hsb & Hmap).
  - apply Forall_forall. intros i Hi. apply filter_In in Hi as [Hi _].
    apply in_seq in Hi. rewrite shape0_range_frame. lia.
  - exists sb. split; [exact Hsb|].
    apply map_Some_inj. rewrite <- (filter_positions p [] rows).
    unfold values.
    assert (H1 : map Some (map snd sb) = map (option_map snd) (map Some sb))
      by (rewrite !map_map; reflexivity).
    rewrite H1, Hmap, map_map. apply map_ext. intros i.
    rewrite range_frame_labelled, nth_error_labelled. simpl.
    now destruct (nth_error rows i).
Qed.

(* ------------------------------------------------------------------ *)
(** ** The distance filter and the proportion on a frame of records *)

Section RadiusFacts.

Variable distance : coordinate -> coordinate -> Q.

Lemma within_loop_range_frame (location : coordinate) (rows : list yelp_row) (radius : Q)
    (m k : nat) (acc : list nat) :
  (k + m <= List.length rows)%nat ->
  within_loop distance location (range_frame rows) radius (seq k m) acc =
  Ok (acc ++ filter (selected distance location rows radius) (seq k m)).
Proof.
  revert k acc. induction m as [|m IH]; intros k acc Hle.
  - simpl. now rewrite app_nil_r.
  - cbn [seq within_loop filter].
    destruct (nth_error rows k) as [r|] eqn:E;
      [|apply nth_error_None in E; lia].
    rewrite (loc_float_range_frame k rows latitude r E).
    rewrite (loc_float_range_frame k rows longitude r E).
    cbn [bind].
    assert (Hsel : selected distance location rows radius k
                   = Qle_bool (distance location (latitude r, longitude r)) radius)
      by (unfold selected, in_radius; now rewrite E).
    rewrite Hsel.
    destruct (Qle_bool _ radius).
    + rewrite IH by lia. now rewrite <- app_assoc.
    + apply IH. lia.
Qed.

Lemma within_range_frame (location : coordinate) (rows : list yelp_row) (radius : Q) :
  within distance location (range_frame rows) radius =
  Ok (filter (selected distance location rows radius) (seq 0 (List.length rows))).
Proof.
  unfold within. rewrite shape0_range_frame.
  now rewrite within_loop_range_frame by lia.
Qed.

(** The rows at the selected positions are the records within the radius. *)
Lemma iloc_selected (location : coordinate) (rows : list yelp_row) (radius : Q) :
  exists sb,
    iloc (range_frame rows)
      (filter (selected distance location rows radius) (seq 0 (List.length rows))) = Ok sb
    /\ values sb = nearby distance location rows radius.
Proof. apply (iloc_range_filter (in_radius distance location radius) rows). Qed.

Lemma length_selected (location : coordinate) (rows : list yelp_row) (radius : Q) :
  List.length (filter (selected distance location rows radius) (seq 0 (List.length rows)))
  = List.length (nearby distance location rows radius).
Proof.
  unfold nearby.
  rewrite <- (length_map Some (filter _ rows)), <- (filter_positions _ [] rows).
  now rewrite length_map.
Qed.

(** What the call computes on a frame of records with the default index. *)
Lemma radius_dollar_proportion_range_frame (location : coordinate)
    (rows : list yelp_row) (radius : Q) (dollar_tier : Z) :
  radius_dollar_proportion distance location (range_frame rows) radius dollar_tier =
  let near := nearby distance location rows radius in
  if Nat.eqb (List.length near) 0
  then Ok 0%Q
  else py_truediv (Z.of_nat (tier_count dollar_tier near)) (Z.of_nat (List.length near)).
Proof.
  unfold radius_dollar_proportion. rewrite within_range_frame. cbn [bind].
  unfold proportion_of. rewrite length_selected. cbv zeta.
  destruct (Nat.eqb _ 0); [reflexivity|].
  destruct (iloc_selected location rows radius) as (sb & -> & Hv). cbn [bind].
  unfold tier_count. rewrite !shape0_values, values_mask, Hv. reflexivity.
Qed.

End RadiusFacts.

(* ------------------------------------------------------------------ *)
(** ** The rounding: range and error *)

Section RoundingFacts.

(** The rounded quotient is within half a unit of the exact one. *)
Lemma rne_div_spec (num den : Z) :
  0 < den ->
  - den <= 2 * (rne_div num den * den - num) <= den.
Proof.
  intros Hden. unfold rne_div.
  pose proof (Z.div_mod num den ltac:(lia)) as Hdm.
  pose proof (Z.mod_pos_bound num den Hden) as Hr.
  destruct (Z.compare_spec (2 * (num mod den)) den) as [E|L|G];
    [destruct (Z.even (num / den))| |]; nia.
Qed.

Lemma rne_div_nonneg (num den : Z) : 0 < den -> 0 <= num -> 0 <= rne_div num den.
Proof.
  intros Hden Hnum. unfold rne_div.
  pose proof (Z.div_pos num den Hnum Hden).
  destruct (_ ?= _); [destruct (Z.even _)| |]; lia.
Qed.

(** A quotient below [2] has a non-positive exponent. *)
Lemma exponent_nonpos (m n : Z) : 0 < m -> 0 < n -> m < 2 * n -> exponent m n <= 0.
Proof.
  intros Hm Hn Hlt. unfold exponent, below_pow2.
  assert (Hlog : Z.log2 m <= Z.log2 n + 1).
  { replace (Z.log2 n + 1) with (Z.log2 (2 * n)).
    - apply Z.log2_le_mono. lia.
    - rewrite Z.log2_double by lia. lia. }
  destruct (Z.leb_spec 0 (Z.log2 m - Z.log2 n)) as [H0|H0].
  - destruct (Z.ltb_spec m (n * 2 ^ (Z.log2 m - Z.log2 n))) as [H1|H1]; [lia|].
    assert (E : Z.log2 m - Z.log2 n = 0 \/ Z.log2 m - Z.log2 n = 1) by lia.
    destruct E as [E|E]; rewrite E in *; [lia|].
    change (2 ^ 1) with 2 in H1. lia.
  - destruct (_ <? _); lia.
Qed.

Lemma pow2_pos (k : Z) : 0 <= k -> 0 < 2 ^ k.
Proof. intros. apply Z.pow_pos_nonneg; lia. Qed.

Lemma pow2_add (x y : Z) : 0 <= x -> 0 <= y -> 2 ^ (x + y) = 2 ^ x * 2 ^ y.
Proof. intros. now apply Z.pow_add_r. Qed.

(** The rounded quotient lies between any two integers that bound the
    exact one. *)
Lemma rne_div_between (num den lo hi : Z) :
  0 < den -> lo * den <= num -> num <= hi * den ->
  lo <= rne_div num den <= hi.
Proof.
  intros Hden Hlo Hhi. pose proof (rne_div_spec num den Hden) as Hs. split; nia.
Qed.

(** The exponent is the binary exponent of the quotient:
    [2^e <= m / n < 2^(e+1)]. *)
Lemma exponent_spec (m n : Z) :
  0 < m -> 0 < n ->
  below_pow2 m n (exponent m n) = false /\ below_pow2 m n (exponent m n + 1) = true.
Proof.
  intros Hm Hn.
  pose proof (Z.log2_spec m Hm) as Ha. pose proof (Z.log2_spec n Hn) as Hb.
  pose proof (Z.log2_nonneg m) as Ha0. pose proof (Z.log2_nonneg n) as Hb0.
  replace (Z.succ (Z.log2 m)) with (Z.log2 m + 1) in Ha by lia.
  replace (Z.succ (Z.log2 n)) with (Z.log2 n + 1) in Hb by lia.
  unfold exponent. set (a := Z.log2 m) in *. set (b := Z.log2 n) in *.
  pose proof (pow2_pos a Ha0) as Hpa. pose proof (pow2_pos b Hb0) as Hpb.
  assert (Ha1 : 2 ^ (a + 1) = 2 ^ a * 2) by (now rewrite pow2_add by lia).
  assert (Hb1 : 2 ^ (b + 1) = 2 ^ b * 2) by (now rewrite pow2_add by lia).
  destruct (below_pow2 m n (a - b)) eqn:E0.
  - replace (a - b - 1 + 1) with (a - b) by lia. split; [|exact E0].
    unfold below_pow2 in *.
    destruct (Z.leb_spec 0 (a - b)) as [He|He].
    + apply Z.ltb_lt in E0.
      destruct (Z.leb_spec 0 (a - b - 1)) as [He1|He1]; apply Z.ltb_ge.
      * assert (Ea : 2 ^ a = 2 ^ (a - b - 1) * 2 ^ (b + 1)).
        { rewrite <- pow2_add by lia. f_equal. lia. }
        pose proof (pow2_pos (a - b - 1) He1). nia.
      * replace (- (a - b - 1)) with 1 by lia. change (2 ^ 1) with 2.
        replace a with b in * by lia. lia.
    + apply Z.ltb_lt in E0.
      destruct (Z.leb_spec 0 (a - b - 1)) as [He1|He1]; [lia|]. apply Z.ltb_ge.
      assert (Eb : 2 ^ b = 2 ^ (- (a - b)) * 2 ^ a).
      { rewrite <- pow2_add by lia. f_equal. lia. }
      replace (- (a - b - 1)) with (- (a - b) + 1) by lia.
      rewrite pow2_add by lia. change (2 ^ 1) with 2.
      pose proof (pow2_pos (- (a - b)) ltac:(lia)). nia.
  - split; [exact E0|]. unfold below_pow2 in *.
    destruct (Z.leb_spec 0 (a - b)) as [He|He].
    + destruct (Z.leb_spec 0 (a - b + 1)) as [_|He1]; [|lia]. apply Z.ltb_lt.
      assert (Ea : 2 ^ a = 2 ^ (a - b) * 2 ^ b).
      { rewrite <- pow2_add by lia. f_equal. lia. }
      rewrite pow2_add by lia. change (2 ^ 1) with 2.
      pose proof (pow2_pos (a - b) He). nia.
    + assert (Eb : 2 ^ b = 2 ^ (- (a - b + 1)) * 2 ^ (a + 1)).
      { rewrite <- pow2_add by lia. f_equal. lia. }
      pose proof (pow2_pos (- (a - b + 1)) ltac:(lia)).
      destruct (Z.leb_spec 0 (a - b + 1)) as [He1|He1]; apply Z.ltb_lt.
      * replace (a - b + 1) with 0 in * by lia. change (2 ^ (- 0)) with 1 in Eb.
        change (2 ^ 0) with 1. lia.
      * nia.
Qed.

(** The significand has 53 bits: [round_pos] is the rounding to the
    nearest number [M * 2^(e - 52)] with [2^52 <= M <= 2^53]. *)
Lemma significand_53_bits (m n : Z) :
  0 < m -> 0 < n ->
  2 ^ 52 <= significand m n (52 - exponent m n) <= 2 ^ 53.
Proof.
  intros Hm Hn. destruct (exponent_spec m n Hm Hn) as [Hlo Hhi].
  set (e := exponent m n) in *. unfold significand, below_pow2 in *.
  destruct (Z.leb_spec 0 (52 - e)) as [Hk|Hk].
  - pose proof (pow2_pos (52 - e) Hk) as Hpk.
    apply rne_div_between; [lia| |].
    + destruct (Z.leb_spec 0 e) as [He|He]; apply Z.ltb_ge in Hlo.
      * replace 52 with (e + (52 - e)) at 1 by lia. rewrite pow2_add by lia.
        pose proof (pow2_pos e He). nia.
      * replace (52 - e) with (52 + - e) by lia. rewrite pow2_add by lia.
        pose proof (pow2_pos (- e) ltac:(lia)). nia.
    + destruct (Z.leb_spec 0 (e + 1)) as [He|He]; apply Z.ltb_lt in Hhi.
      * replace 53 with (e + 1 + (52 - e)) at 1 by lia. rewrite pow2_add by lia.
        pose proof (pow2_pos (e + 1) He). nia.
      * replace (52 - e) with (53 + - (e + 1)) by lia. rewrite pow2_add by lia.
        pose proof (pow2_pos (- (e + 1)) ltac:(lia)). nia.
  - destruct (Z.leb_spec 0 e) as [He|He]; [|lia].
    destruct (Z.leb_spec 0 (e + 1)) as [_|He1]; [|lia].
    apply Z.ltb_ge in Hlo. apply Z.ltb_lt in Hhi.
    pose proof (pow2_pos (- (52 - e)) ltac:(lia)) as Hpk.
    apply rne_div_between; [nia| |].
    + replace e with (52 + - (52 - e)) in Hlo at 1 by lia.
      rewrite pow2_add in Hlo by lia. nia.
    + replace (e + 1) with (53 + - (52 - e)) in Hhi by lia.
      rewrite pow2_add in Hhi by lia. nia.
Qed.

Lemma round_pos_unfold (m n : Z) :
  0 < m -> 0 < n -> m < 2 * n ->
  exists k, 52 <= k /\
    round_pos m n = rne_div (m * 2 ^ k) n # Z.to_pos (2 ^ k).
Proof.
  intros Hm Hn Hlt. pose proof (exponent_nonpos m n Hm Hn Hlt) as He.
  exists (52 - exponent m n). split; [lia|].
  unfold round_pos, significand, scale.
  destruct (Z.leb_spec 0 (52 - exponent m n)); [reflexivity|lia].
Qed.

(** A quotient in [(0, 1]] rounds into [[0, 1]]. *)
Lemma round_pos_unit (m n : Z) :
  0 < m -> m <= n -> (0 <= round_pos m n /\ round_pos m n <= 1)%Q.
Proof.
  intros Hm Hle.
  destruct (round_pos_unfold m n) as (k & Hk & ->); try lia.
  pose proof (pow2_pos k ltac:(lia)) as Hp.
  pose proof (rne_div_spec (m * 2 ^ k) n ltac:(lia)) as Hs.
  pose proof (rne_div_nonneg (m * 2 ^ k) n ltac:(lia) ltac:(nia)) as H0.
  unfold Qle. cbn [Qnum Qden]. rewrite Z2Pos.id by lia. split; [lia|].
  nia.
Qed.

(** A quotient in [(0, 2)] is rounded with an error of at most [2^-53]. *)
Lemma round_pos_error (m n : Z) :
  0 < m -> 0 < n -> m < 2 * n ->
  (Qabs (round_pos m n - (m # Z.to_pos n)) <= 1 # 9007199254740992)%Q.
Proof.
  intros Hm Hn Hlt.
  destruct (round_pos_unfold m n) as (k & Hk & ->); try lia.
  pose proof (pow2_pos k ltac:(lia)) as Hp.
  pose proof (rne_div_spec (m * 2 ^ k) n ltac:(lia)) as Hs.
  assert (H52 : 2 ^ 52 <= 2 ^ k) by (apply Z.pow_le_mono_r; lia).
  change (2 ^ 52) with 4503599627370496 in H52.
  apply Qabs_Qle_condition. unfold Qle, Qminus, Qplus, Qopp. cbn [Qnum Qden].
  rewrite !Pos2Z.inj_mul, !Z2Pos.id by lia.
  split; nia.
Qed.

End RoundingFacts.

(* ------------------------------------------------------------------ *)
(** ** Python's division of two counts *)

Lemma round_pos_nonneg (m n : Z) : 0 < m -> 0 < n -> (0 <= round_pos m n)%Q.
Proof.
  intros Hm Hn. unfold round_pos, significand, scale.
  set (k := 52 - exponent m n).
  destruct (Z.leb_spec 0 k) as [Hk|Hk]; unfold Qle; cbn [Qnum Qden].
  - pose proof (pow2_pos k Hk).
    pose proof (rne_div_nonneg (m * 2 ^ k) n Hn ltac:(nia)). lia.
  - pose proof (pow2_pos (- k) ltac:(lia)).
    pose proof (rne_div_nonneg m (n * 2 ^ (- k)) ltac:(nia) ltac:(lia)). nia.
Qed.

Lemma round64_nonneg (q : Q) : (0 <= q)%Q -> (0 <= round64 q)%Q.
Proof.
  destruct q as [[|m|m] n]; unfold round64; cbn [Qnum Qden]; intros H.
  - apply Qle_refl.
  - apply round_pos_nonneg; lia.
  - unfold Qle in H. cbn in H. lia.
Qed.

(** A value in [[0, 2)] is rounded with an error of at most [2^-53]. *)
Lemma round64_error (q : Q) :
  (0 <= q)%Q -> (q < 2)%Q ->
  (Qabs (round64 q - q) <= 1 # 9007199254740992)%Q.
Proof.
  destruct q as [[|m|m] n]; unfold round64; cbn [Qnum Qden]; intros H0 H2.
  - apply Qabs_Qle_condition. split; unfold Qle; cbn; lia.
  - pose proof (round_pos_error (Zpos m) (Zpos n)) as H. cbn [Z.to_pos] in H.
    apply H; try lia. unfold Qlt in H2. cbn in H2. lia.
  - unfold Qle in H0. cbn in H0. lia.
Qed.

Lemma round64_unit (q : Q) : (0 <= q)%Q -> (q <= 1)%Q -> (0 <= round64 q <= 1)%Q.
Proof.
  destruct q as [[|m|m] n]; unfold round64; cbn [Qnum Qden]; intros H0 H1.
  - split; unfold Qle; cbn; lia.
  - apply round_pos_unit; [lia|]. unfold Qle in H1. cbn in H1. lia.
  - unfold Qle in H0. cbn in H0. lia.
Qed.

(** The quotient of a count by a positive count: never an error, in
    [[0, 1]] and within [2^-53] of the exact quotient. *)
Lemma py_truediv_counts (c n : nat) :
  (0 < n)%nat -> (c <= n)%nat ->
  exists v,
    py_truediv (Z.of_nat c) (Z.of_nat n) = Ok v
    /\ (0 <= v <= 1)%Q
    /\ (Qabs (v - (Z.of_nat c # Pos.of_nat n)) <= 1 # 9007199254740992)%Q.
Proof.
  intros Hn Hc. unfold py_truediv.
  destruct (Z.eqb_spec (Z.of_nat n) 0) as [E|_]; [lia|].
  eexists. split; [reflexivity|].
  assert (Hq : (inject_Z (Z.of_nat c) / inject_Z (Z.of_nat n) == Z.of_nat c # Pos.of_nat n)%Q).
  { destruct n as [|n']; [lia|].
    unfold Qdiv, Qinv, Qmult, Qeq. cbn [Qnum Qden inject_Z Z.of_nat].
    rewrite Pos.of_nat_succ. cbn [Qnum Qden]. lia. }
  assert (H0 : (0 <= inject_Z (Z.of_nat c) / inject_Z (Z.of_nat n))%Q).
  { rewrite Hq. unfold Qle. cbn. lia. }
  assert (H1 : (inject_Z (Z.of_nat c) / inject_Z (Z.of_nat n) <= 1)%Q).
  { rewrite Hq. unfold Qle. cbn [Qnum Qden]. destruct n as [|n']; [lia|].
    rewrite <- Pos.of_nat_succ, Zpos_P_of_succ_nat. lia. }
  split; [now apply round64_unit|].
  rewrite <- Hq. apply round64_error; [exact H0|].
  apply Qle_lt_trans with (1 := H1). reflexivity.
Qed.

(* ------------------------------------------------------------------ *)
(** ** Rows reached through their label *)

Lemma existsb_index_mask {R : Type} (p : R -> bool) (df : frame R) (lr : Z * R) :
  In lr df -> p (snd lr) = true ->
  existsb (Z.eqb (fst lr)) (index (mask p df)) = true.
Proof.
  intros Hin Hp. apply existsb_exists. exists (fst lr). split; [|apply Z.eqb_refl].
  unfold index, mask. apply in_map. apply filter_In. now split.
Qed.

Lemma hood_proportion_empty (yelp_df : frame yelp_row) (hood : string) (dollar_tier : Z) :
  mask (fun r => String.eqb (cra r) hood) yelp_df = [] ->
  hood_proportion yelp_df hood dollar_tier = Ok 0%Q.
Proof. intros E. unfold hood_proportion. now rewrite E. Qed.

(** On any frame: when the loop selects nothing the call returns [0]. *)
Lemma radius_dollar_proportion_nothing_selected
    (distance : coordinate -> coordinate -> Q) (location : coordinate)
    (df : frame yelp_row) (radius : Q) (dollar_tier : Z) :
  within distance location df radius = Ok [] ->
  radius_dollar_proportion distance location df radius dollar_tier = Ok 0%Q.
Proof. intros E. unfold radius_dollar_proportion. now rewrite E. Qed.

(* ------------------------------------------------------------------ *)
(** ** The call with the errors of geopy *)

Lemma loc_float_row {R A : Type} (df : frame R) (i : Z) (col : R -> A) (v : A) :
  loc_float df i col = Ok v ->
  exists lr, In lr df /\ loc df i = [lr] /\ v = col (snd lr).
Proof.
  unfold loc_float. destruct (loc df i) as [|lr [|lr2 rest]] eqn:E; try discriminate.
  intros H. injection H as <-. exists lr. split; [|now split].
  assert (Hin : In lr (loc df i)) by (rewrite E; now left).
  unfold loc in Hin. now apply filter_In in Hin.
Qed.

Section GeopyFacts.

Variable miles : coordinate -> coordinate -> result Q.
Variable distance : coordinate -> coordinate -> Q.
Variable location : coordinate.
Variable df : frame yelp_row.

(** Where geopy returns for every row of the frame, the two bodies agree. *)
Hypothesis miles_returns :
  forall lr, In lr df ->
    miles location (latitude (snd lr), longitude (snd lr))
    = Ok (distance location (latitude (snd lr), longitude (snd lr))).

Lemma within_loop_checked_agrees (radius : Q) (todo acc : list nat) :
  within_loop_checked miles location df radius todo acc
  = within_loop distance location df radius todo acc.
Proof.
  revert acc. induction todo as [|i todo IH]; intros acc; [reflexivity|].
  cbn [within_loop_checked within_loop].
  destruct (loc_float df (Z.of_nat i) latitude) as [lat|e] eqn:Elat; [|reflexivity].
  destruct (loc_float df (Z.of_nat i) longitude) as [long|e] eqn:Elong; [|reflexivity].
  cbn [bind].
  apply loc_float_row in Elat as (lr & Hin & Hloc & ->).
  apply loc_float_row in Elong as (lr' & _ & Hloc' & ->).
  rewrite Hloc in Hloc'. injection Hloc' as <-.
  rewrite (miles_returns lr Hin). cbn [bind].
  destruct (Qle_bool _ radius); apply IH.
Qed.

Lemma radius_dollar_proportion_checked_agrees (radius : Q) (dollar_tier : Z) :
  radius_dollar_proportion_checked miles location df radius dollar_tier
  = radius_dollar_proportion distance location df radius dollar_tier.
Proof.
  unfold radius_dollar_proportion_checked, radius_dollar_proportion, within.
  now rewrite within_loop_checked_agrees.
Qed.

End GeopyFacts.

(* ------------------------------------------------------------------ *)
(** ** Claims *)

(** C1. When no business record lies within the radius of the centre,
    [radius_dollar_proportion] returns exactly [0] for every tier: a value,
    not an exception; so does the body with the errors of geopy, when geopy
    returns a distance above the radius for every record. Likewise
    [dollar_rating], on a neighbourhood that has no business record,
    returns the table with its labels, its rows in their order and their
    neighbourhoods, and with the proportion [0] in the tier column of every
    row of that neighbourhood; [yelp_df] is returned as it was. *)
Theorem empty_group_proportion_is_zero
    (distance : coordinate -> coordinate -> Q) (location : coordinate)
    (rows : list yelp_row) (radius : Q) (dollar_tier : Z)
    (seattle_df : frame seattle_row) (yelp_df : frame yelp_row) (hood : string) (t : tier) :
  (nearby distance location rows radius = [] ->
   radius_dollar_proportion distance location (range_frame rows) radius dollar_tier
   = Ok 0%Q)
  /\
  (forall miles : coordinate -> coordinate -> result Q,
     (forall row, In row rows ->
        exists apart,
          miles location (latitude row, longitude row) = Ok apart
          /\ Qle_bool apart radius = false) ->
     radius_dollar_proportion_checked miles location (range_frame rows) radius dollar_tier
     = Ok 0%Q)
  /\
  (mask (fun r => String.eqb (cra r) hood) yelp_df = [] ->
   exists seattle_df',
     dollar_rating seattle_df yelp_df hood t = Ok (seattle_df', yelp_df)
     /\ index seattle_df' = index seattle_df
     /\ (forall i l row,
           nth_error seattle_df i = Some (l, row) ->
           exists row',
             nth_error seattle_df' i = Some (l, row')
             /\ neighborhood row' = neighborhood row
             /\ (neighborhood row = hood -> dollar row' t = 0%Q))
     /\ (forall lr, In lr seattle_df' -> neighborhood (snd lr) = hood ->
                    dollar (snd lr) t = 0%Q)).
Proof.
  assert (Hfirst : forall distance',
            nearby distance' location rows radius = [] ->
            radius_dollar_proportion distance' location (range_frame rows) radius dollar_tier
            = Ok 0%Q).
  { intros distance' E. rewrite radius_dollar_proportion_range_frame. cbv zeta.
    now rewrite E. }
  split; [apply Hfirst|]. split.
  - intros miles Hfar.
    rewrite (radius_dollar_proportion_checked_agrees miles (miles_value miles)).
    + apply Hfirst. unfold nearby.
      assert (Hnone : forall row, In row rows ->
                        in_radius (miles_value miles) location radius row = false).
      { intros row Hrow. destruct (Hfar row Hrow) as (apart & Hm & Hle).
        unfold in_radius, miles_value. now rewrite Hm. }
      clear - Hnone. induction rows as [|row rest IH]; [reflexivity|].
      cbn [filter]. rewrite (Hnone row) by now left.
      apply IH. intros row' Hrow'. apply Hnone. now right.
    + intros [l row] Hin. unfold range_frame in Hin. apply in_combine_r in Hin.
      cbn [snd]. destruct (Hfar row Hin) as (apart & Hm & _).
      unfold miles_value. now rewrite Hm.
  - intros E. unfold dollar_rating. rewrite (hood_proportion_empty _ _ _ E). cbn [bind].
    eexists. split; [reflexivity|]. split; [|split].
    + unfold index, set_loc. rewrite map_map. apply map_ext.
      intros lr. now destruct (existsb _ _).
    + intros i l row Hi. unfold set_loc. rewrite nth_error_map, Hi. cbn [option_map fst snd].
      destruct (existsb _ _) eqn:Ex.
      * eexists. split; [reflexivity|]. split; [reflexivity|].
        intros _. cbn. unfold tier_eqb. now rewrite Z.eqb_refl.
      * exists row. split; [reflexivity|]. split; [reflexivity|].
        intros Hhood.
        pose proof (existsb_index_mask (fun r => String.eqb (neighborhood r) hood)
                      seattle_df (l, row) (nth_error_In _ i Hi)) as Hex.
        cbn [fst snd] in Hex. rewrite Hex in Ex; [discriminate|].
        now apply String.eqb_eq.
    + intros lr' Hin Hhood. unfold set_loc in Hin.
      apply in_map_iff in Hin as (lr & <- & Hin).
      destruct (existsb _ _) eqn:Ex.
      * cbn. unfold tier_eqb. now rewrite Z.eqb_refl.
      * rewrite existsb_index_mask in Ex; [discriminate|exact Hin|].
        now apply String.eqb_eq.
Qed.

Lemma empty_group_proportion_is_zero_witness :
  radius_dollar_proportion Sample.taxicab Sample.far_away
    (range_frame Sample.businesses) (1 # 2) 2 = Ok 0%Q
  /\ radius_dollar_proportion_checked Sample.taxicab_checked Sample.far_away
       (range_frame Sample.businesses) (1 # 2) 2 = Ok 0%Q
  /\ exists seattle_df',
       dollar_rating (range_frame Sample.demographics) (range_frame Sample.businesses)
         "Montlake" Tier3
       = Ok (seattle_df', range_frame Sample.businesses)
       /\ index seattle_df' = [0; 1; 2]
       /\ forall lr, In lr seattle_df' -> neighborhood (snd lr) = "Montlake"%string ->
                     dollar (snd lr) Tier3 = 0%Q.
Proof.
  destruct (empty_group_proportion_is_zero Sample.taxicab Sample.far_away
              Sample.businesses (1 # 2) 2
              (range_frame Sample.demographics) (range_frame Sample.businesses)
              "Montlake" Tier3) as (H1 & H2 & H3).
  split; [apply H1; reflexivity|]. split.
  - apply H2. intros row [<-|[<-|[<-|[]]]]; eexists; split; reflexivity.
  - destruct (H3 eq_refl) as (seattle_df' & Hcall & Hidx & _ & Hzero).
    exists seattle_df'. split; [exact Hcall|]. split; [exact Hidx|exact Hzero].
Defined.

Lemma tier_count_le (dollar_tier : Z) (rows : list yelp_row) :
  (tier_count dollar_tier rows <= List.length rows)%nat.
Proof. unfold tier_count. apply filter_length_le. Qed.

(** C3. On a non-empty set of selected records the computed proportion is
    Python's quotient of the number of records of the tier by the number of
    records; it lies in [[0, 1]] (and within [2^-53] of the exact
    quotient). *)
Theorem proportion_is_count_ratio
    (distance : coordinate -> coordinate -> Q) (location : coordinate)
    (rows : list yelp_row) (radius : Q) (dollar_tier : Z) :
  nearby distance location rows radius <> [] ->
  exists v,
    radius_dollar_proportion distance location (range_frame rows) radius dollar_tier = Ok v
    /\ py_truediv
         (Z.of_nat (tier_count dollar_tier (nearby distance location rows radius)))
         (Z.of_nat (List.length (nearby distance location rows radius))) = Ok v
    /\ (0 <= v <= 1)%Q
    /\ (Qabs (v - (Z.of_nat (tier_count dollar_tier (nearby distance location rows radius))
                   # Pos.of_nat (List.length (nearby distance location rows radius))))
        <= 1 # 9007199254740992)%Q.
Proof.
  intros Hne. rewrite radius_dollar_proportion_range_frame. cbv zeta.
  set (near := nearby distance location rows radius) in *.
  destruct near as [|r near'] eqn:E; [contradiction|]. rewrite <- E. clear Hne.
  assert (Hpos : (0 < List.length near)%nat) by (rewrite E; cbn; lia).
  destruct (Nat.eqb_spec (List.length near) 0) as [H0|_]; [lia|].
  destruct (py_truediv_counts (tier_count dollar_tier near) (List.length near) Hpos
              (tier_count_le dollar_tier near)) as (v & Hv & Hunit & Herr).
  exists v. now rewrite Hv.
Qed.

Lemma proportion_is_count_ratio_witness :
  exists v,
    radius_dollar_proportion Sample.taxicab Sample.center
      (range_frame Sample.businesses) 1 2 = Ok v
    /\ py_truediv
         (Z.of_nat (tier_count 2 (nearby Sample.taxicab Sample.center Sample.businesses 1)))
         (Z.of_nat (List.length (nearby Sample.taxicab Sample.center Sample.businesses 1)))
       = Ok v
    /\ (0 <= v <= 1)%Q
    /\ (Qabs (v - (Z.of_nat (tier_count 2 (nearby Sample.taxicab Sample.center
                                             Sample.businesses 1))
                   # Pos.of_nat (List.length (nearby Sample.taxicab Sample.center
                                                Sample.businesses 1))))
        <= 1 # 9007199254740992)%Q.
Proof.
  apply (proportion_is_count_ratio Sample.taxicab Sample.center Sample.businesses 1 2).
  vm_compute. discriminate.
Defined.

Section FilterClaims.

Variable distance : coordinate -> coordinate -> Q.

Lemma in_radius_iff (location : coordinate) (radius : Q) (row : yelp_row) :
  in_radius distance location radius row = true <->
  (distance location (latitude row, longitude row) <= radius)%Q.
Proof. unfold in_radius. apply Qle_bool_iff. Qed.

Lemma in_radius_mono (location : coordinate) (r r2 : Q) (row : yelp_row) :
  (r <= r2)%Q ->
  in_radius distance location r row = true ->
  in_radius distance location r2 row = true.
Proof.
  intros Hle H. apply in_radius_iff. apply in_radius_iff in H.
  now apply Qle_trans with r.
Qed.

(** C5. The distance filter selects a record if and only if the distance
    between the centre and the record's coordinates is at most the radius:
    a record exactly at the radius is selected. The rows it hands to the
    proportion are these records, in order. *)
Theorem distance_filter_selects_within_radius
    (location : coordinate) (rows : list yelp_row) (radius : Q) :
  exists positions surrounding,
    within distance location (range_frame rows) radius = Ok positions
    /\ (forall i, In i positions -> (i < List.length rows)%nat)
    /\ (forall i row, nth_error rows i = Some row ->
          (In i positions <->
           (distance location (latitude row, longitude row) <= radius)%Q))
    /\ (forall i row, nth_error rows i = Some row ->
          (distance location (latitude row, longitude row) == radius)%Q ->
          In i positions)
    /\ iloc (range_frame rows) positions = Ok surrounding
    /\ values surrounding
       = filter (fun row => Qle_bool (distance location (latitude row, longitude row)) radius)
           rows.
Proof.
  destruct (iloc_selected distance location rows radius) as (sb & Hsb & Hv).
  exists (filter (selected distance location rows radius) (seq 0 (List.length rows))), sb.
  assert (Hiff : forall i row, nth_error rows i = Some row ->
            (In i (filter (selected distance location rows radius)
                     (seq 0 (List.length rows))) <->
             (distance location (latitude row, longitude row) <= radius)%Q)).
  { intros i row Hrow. rewrite filter_In, in_seq. unfold selected. rewrite Hrow.
    rewrite in_radius_iff. split; [tauto|]. intros H. split; [|exact H].
    assert (i < List.length rows)%nat by (apply nth_error_Some; congruence). lia. }
  repeat split.
  - apply within_range_frame.
  - intros i Hi. apply filter_In in Hi as [Hi _]. apply in_seq in Hi. lia.
  - apply Hiff; assumption.
  - apply Hiff; assumption.
  - intros i row Hrow Heq. apply (Hiff i row Hrow). rewrite Heq. apply Qle_refl.
  - exact Hsb.
  - exact Hv.
Qed.

(** C4. The distance filter is monotone in the radius: with [r <= r2]
    every position, and every record, selected within [r] is selected
    within [r2]. *)
Theorem distance_filter_monotone
    (location : coordinate) (rows : list yelp_row) (r r2 : Q) :
  (r <= r2)%Q ->
  exists positions positions2,
    within distance location (range_frame rows) r = Ok positions
    /\ within distance location (range_frame rows) r2 = Ok positions2
    /\ incl positions positions2
    /\ incl (nearby distance location rows r) (nearby distance location rows r2).
Proof.
  intros Hle. do 2 eexists. rewrite !within_range_frame.
  split; [reflexivity|]. split; [reflexivity|]. split.
  - intros i Hi. apply filter_In in Hi as [Hseq Hsel]. apply filter_In. split; [exact Hseq|].
    unfold selected in *. destruct (nth_error rows i); [|discriminate].
    now apply in_radius_mono with r.
  - intros row Hrow. apply filter_In in Hrow as [Hin Hsel]. apply filter_In.
    split; [exact Hin|]. now apply in_radius_mono with r.
Qed.

End FilterClaims.

Lemma distance_filter_monotone_witness :
  exists positions positions2,
    within Sample.taxicab Sample.center (range_frame Sample.businesses) (1 # 2)
    = Ok positions
    /\ within Sample.taxicab Sample.center (range_frame Sample.businesses) 1
       = Ok positions2
    /\ incl positions positions2
    /\ incl (nearby Sample.taxicab Sample.center Sample.businesses (1 # 2))
         (nearby Sample.taxicab Sample.center Sample.businesses 1).
Proof.
  apply (distance_filter_monotone Sample.taxicab Sample.center Sample.businesses (1 # 2) 1).
  unfold Qle. simpl. lia.
Defined.

(* ------------------------------------------------------------------ *)
(** ** Sums of proportions *)

Section SumFacts.

Local Open Scope Q_scope.

Lemma py_add_error (x y : Q) :
  0 <= x -> 0 <= y -> x + y < 2 ->
  0 <= py_add x y /\ Qabs (py_add x y - (x + y)) <= 1 # 9007199254740992.
Proof.
  intros Hx Hy Hlt. unfold py_add. split.
  - apply round64_nonneg. lra.
  - apply round64_error; lra.
Qed.

(** Python's sum of four values, each within [2^-53] of a share of [1], is
    within [2^-50] of [1]. *)
Lemma py_sum4_error (e1 e2 e3 e4 p1 p2 p3 p4 : Q) :
  0 <= e1 -> 0 <= e2 -> 0 <= e3 -> 0 <= e4 ->
  e1 + e2 + e3 + e4 == 1 ->
  0 <= p1 -> 0 <= p2 -> 0 <= p3 -> 0 <= p4 ->
  Qabs (p1 - e1) <= 1 # 9007199254740992 -> Qabs (p2 - e2) <= 1 # 9007199254740992 ->
  Qabs (p3 - e3) <= 1 # 9007199254740992 -> Qabs (p4 - e4) <= 1 # 9007199254740992 ->
  Qabs (py_sum [p1; p2; p3; p4] - 1) <= 1 # 1125899906842624.
Proof.
  intros He1 He2 He3 He4 Hsum Hp1 Hp2 Hp3 Hp4 H1 H2 H3 H4.
  apply Qabs_Qle_condition in H1, H2, H3, H4.
  unfold py_sum. cbn [fold_left].
  destruct (py_add_error 0 p1) as [Hs1 Ha1]; try lra.
  apply Qabs_Qle_condition in Ha1.
  destruct (py_add_error (py_add 0 p1) p2) as [Hs2 Ha2]; try lra.
  apply Qabs_Qle_condition in Ha2.
  destruct (py_add_error (py_add (py_add 0 p1) p2) p3) as [Hs3 Ha3]; try lra.
  apply Qabs_Qle_condition in Ha3.
  destruct (py_add_error (py_add (py_add (py_add 0 p1) p2) p3) p4) as [Hs4 Ha4]; try lra.
  apply Qabs_Qle_condition in Ha4.
  apply Qabs_Qle_condition. lra.
Qed.

End SumFacts.

(** The four tier counts add up to the number of records. *)
Lemma tier_counts_total (rows : list yelp_row) :
  (forall row, In row rows -> 1 <= price row <= 4) ->
  (tier_count 1 rows + tier_count 2 rows + tier_count 3 rows + tier_count 4 rows
   = List.length rows)%nat.
Proof.
  unfold tier_count. induction rows as [|r rows IH]; intros Hp; [reflexivity|].
  specialize (IH (fun row H => Hp row (or_intror H))).
  pose proof (Hp r (or_introl eq_refl)) as Hr.
  cbn [filter List.length].
  destruct (Z.eqb_spec (price r) 1), (Z.eqb_spec (price r) 2),
    (Z.eqb_spec (price r) 3), (Z.eqb_spec (price r) 4); cbn [List.length]; lia.
Qed.

Lemma exact_shares_total (c1 c2 c3 c4 n : nat) :
  (0 < n)%nat -> (c1 + c2 + c3 + c4 = n)%nat ->
  ((Z.of_nat c1 # Pos.of_nat n) + (Z.of_nat c2 # Pos.of_nat n)
   + (Z.of_nat c3 # Pos.of_nat n) + (Z.of_nat c4 # Pos.of_nat n) == 1)%Q.
Proof.
  intros Hn Hsum.
  assert (E : forall c, (Z.of_nat c # Pos.of_nat n == inject_Z (Z.of_nat c) / inject_Z (Z.of_nat n))%Q).
  { intros c. destruct n as [|n']; [lia|].
    unfold Qdiv, Qinv, Qmult, Qeq. cbn [Qnum Qden inject_Z Z.of_nat].
    rewrite Pos.of_nat_succ. cbn [Qnum Qden]. lia. }
  rewrite !E.
  assert (Hn0 : ~ (inject_Z (Z.of_nat n) == 0)%Q).
  { unfold Qeq. cbn. lia. }
  assert (Hs : (inject_Z (Z.of_nat c1) + inject_Z (Z.of_nat c2) + inject_Z (Z.of_nat c3)
                + inject_Z (Z.of_nat c4) == inject_Z (Z.of_nat n))%Q).
  { rewrite <- !inject_Z_plus. rewrite <- Hsum, !Nat2Z.inj_add. reflexivity. }
  field_simplify_eq; [|exact Hn0]. rewrite <- Hs. ring.
Qed.

(** C2, as the code has it. With every selected record in a tier of
    [1 .. 4]: the four tier counts add up to the number of selected
    records, so the exact quotients add up to [1]; each computed proportion
    is within [2^-53] of its quotient and Python's sum of the four is
    within [2^-50] of [1]. When nothing is selected the four proportions are
    [0] and so is their sum. *)
Theorem tier_proportions_sum
    (distance : coordinate -> coordinate -> Q) (location : coordinate)
    (rows : list yelp_row) (radius : Q) :
  (forall row, In row (nearby distance location rows radius) -> 1 <= price row <= 4) ->
  exists p1 p2 p3 p4,
    radius_dollar_proportion distance location (range_frame rows) radius 1 = Ok p1
    /\ radius_dollar_proportion distance location (range_frame rows) radius 2 = Ok p2
    /\ radius_dollar_proportion distance location (range_frame rows) radius 3 = Ok p3
    /\ radius_dollar_proportion distance location (range_frame rows) radius 4 = Ok p4
    /\ (nearby distance location rows radius = [] ->
        p1 = 0%Q /\ p2 = 0%Q /\ p3 = 0%Q /\ p4 = 0%Q /\ py_sum [p1; p2; p3; p4] = 0%Q)
    /\ (nearby distance location rows radius <> [] ->
        let near := nearby distance location rows radius in
        let n := Pos.of_nat (List.length near) in
        (tier_count 1 near + tier_count 2 near + tier_count 3 near + tier_count 4 near
         = List.length near)%nat
        /\ ((Z.of_nat (tier_count 1 near) # n) + (Z.of_nat (tier_count 2 near) # n)
            + (Z.of_nat (tier_count 3 near) # n) + (Z.of_nat (tier_count 4 near) # n)
            == 1)%Q
        /\ (Qabs (p1 - (Z.of_nat (tier_count 1 near) # n)) <= 1 # 9007199254740992)%Q
        /\ (Qabs (p2 - (Z.of_nat (tier_count 2 near) # n)) <= 1 # 9007199254740992)%Q
        /\ (Qabs (p3 - (Z.of_nat (tier_count 3 near) # n)) <= 1 # 9007199254740992)%Q
        /\ (Qabs (p4 - (Z.of_nat (tier_count 4 near) # n)) <= 1 # 9007199254740992)%Q
        /\ (Qabs (py_sum [p1; p2; p3; p4] - 1) <= 1 # 1125899906842624)%Q).
Proof.
  intros Htiers. rewrite !radius_dollar_proportion_range_frame. cbv zeta.
  set (near := nearby distance location rows radius) in *.
  destruct (Nat.eqb_spec (List.length near) 0) as [H0|H0].
  - exists 0%Q, 0%Q, 0%Q, 0%Q.
    do 4 (split; [reflexivity|]). split.
    + intros _. repeat split.
    + intros Hne. destruct near; [contradiction|discriminate].
  - assert (Hpos : (0 < List.length near)%nat) by lia.
    destruct (py_truediv_counts _ _ Hpos (tier_count_le 1 near)) as (p1 & E1 & [P1 _] & A1).
    destruct (py_truediv_counts _ _ Hpos (tier_count_le 2 near)) as (p2 & E2 & [P2 _] & A2).
    destruct (py_truediv_counts _ _ Hpos (tier_count_le 3 near)) as (p3 & E3 & [P3 _] & A3).
    destruct (py_truediv_counts _ _ Hpos (tier_count_le 4 near)) as (p4 & E4 & [P4 _] & A4).
    exists p1, p2, p3, p4.
    do 4 (split; [assumption|]). split.
    + intros E. rewrite E in H0. contradiction H0. reflexivity.
    + intros _.
      pose proof (tier_counts_total near Htiers) as Hc.
      pose proof (exact_shares_total _ _ _ _ _ Hpos Hc) as Hq.
      do 6 (split; [assumption|]).
      apply (py_sum4_error
               (Z.of_nat (tier_count 1 near) # Pos.of_nat (List.length near))
               (Z.of_nat (tier_count 2 near) # Pos.of_nat (List.length near))
               (Z.of_nat (tier_count 3 near) # Pos.of_nat (List.length near))
               (Z.of_nat (tier_count 4 near) # Pos.of_nat (List.length near)));
        try assumption; unfold Qle; cbn [Qnum Qden]; lia.
Qed.

Lemma tier_proportions_sum_witness :
  exists p1 p2 p3 p4,
    radius_dollar_proportion Sample.taxicab Sample.center
      (range_frame Sample.businesses) 1 1 = Ok p1
    /\ radius_dollar_proportion Sample.taxicab Sample.center
         (range_frame Sample.businesses) 1 2 = Ok p2
    /\ radius_dollar_proportion Sample.taxicab Sample.center
         (range_frame Sample.businesses) 1 3 = Ok p3
    /\ radius_dollar_proportion Sample.taxicab Sample.center
         (range_frame Sample.businesses) 1 4 = Ok p4
    /\ (Qabs (py_sum [p1; p2; p3; p4] - 1) <= 1 # 1125899906842624)%Q.
Proof.
  destruct (tier_proportions_sum Sample.taxicab Sample.center Sample.businesses 1)
    as (p1 & p2 & p3 & p4 & H1 & H2 & H3 & H4 & _ & Hne).
  - intros row Hin. vm_compute in Hin.
    destruct Hin as [<-|[<-|[]]]; vm_compute; split; discriminate.
  - exists p1, p2, p3, p4. do 4 (split; [assumption|]).
    apply Hne. vm_compute. discriminate.
Defined.

(** C2, as stated, fails: for thirty-five selected records, all in tiers
    [1 .. 4] (eight, nine and eighteen in tiers 2, 3 and 4), the four
    computed proportions add up to less than [1], in Python's floating
    point sum and in exact arithmetic alike. *)
Lemma proportions_sum_below_one :
  forallb (fun row => (1 <=? price row) && (price row <=? 4)) Sample.thirty_five = true
  /\ List.length (nearby Sample.taxicab Sample.center Sample.thirty_five 1) = 35%nat
  /\ exists p1 p2 p3 p4,
       radius_dollar_proportion Sample.taxicab Sample.center
         (range_frame Sample.thirty_five) 1 1 = Ok p1
       /\ radius_dollar_proportion Sample.taxicab Sample.center
            (range_frame Sample.thirty_five) 1 2 = Ok p2
       /\ radius_dollar_proportion Sample.taxicab Sample.center
            (range_frame Sample.thirty_five) 1 3 = Ok p3
       /\ radius_dollar_proportion Sample.taxicab Sample.center
            (range_frame Sample.thirty_five) 1 4 = Ok p4
       /\ (py_sum [p1; p2; p3; p4] == 9007199254740991 # 9007199254740992)%Q
       /\ (py_sum [p1; p2; p3; p4] < 1)%Q
       /\ (p1 + p2 + p3 + p4 < 1)%Q.
Proof.
  split; [reflexivity|]. split; [reflexivity|].
  exists 0%Q, (8235153604334621 # 36028797018963968)%Q,
    (4632273902438224 # 18014398509481984)%Q, (4632273902438224 # 9007199254740992)%Q.
  repeat split; vm_compute; reflexivity.
Qed.

(** The same sum in the kernel's binary64 arithmetic. *)
Example binary64_sum_below_one :
  let p2 := PrimFloat.div 8 35 in
  let p3 := PrimFloat.div 9 35 in
  let p4 := PrimFloat.div 18 35 in
  let total := PrimFloat.add (PrimFloat.add (PrimFloat.add (PrimFloat.add 0 0) p2) p3) p4 in
  PrimFloat.ltb total 1 = true
  /\ float_value p2 = Some (Qred (round64 (8 # 35)))
  /\ float_value p3 = Some (Qred (round64 (9 # 35)))
  /\ float_value p4 = Some (Qred (round64 (18 # 35)))
  /\ float_value total
     = Some (Qred (py_sum [0%Q; round64 (8 # 35); round64 (9 # 35); round64 (18 # 35)])).
Proof. vm_compute. repeat split. Qed.

(* ------------------------------------------------------------------ *)
(** ** The frame of [dollar_rating] *)

Lemma NoDup_index_unique {R : Type} (df : frame R) (l : Z) (r1 r2 : R) :
  NoDup (index df) -> In (l, r1) df -> In (l, r2) df -> r1 = r2.
Proof.
  unfold index. induction df as [|[l0 r0] df IH]; intros Hnd H1 H2; [contradiction|].
  cbn [map fst] in Hnd. apply NoDup_cons_iff in Hnd as [Hnotin Hnd].
  destruct H1 as [H1|H1], H2 as [H2|H2].
  - congruence.
  - injection H1 as -> ->. exfalso. apply Hnotin.
    change l with (fst (l, r2)). now apply in_map.
  - injection H2 as -> ->. exfalso. apply Hnotin.
    change l with (fst (l, r1)). now apply in_map.
  - now apply IH.
Qed.

Lemma hood_proportion_total (yelp_df : frame yelp_row) (hood : string) (dollar_tier : Z) :
  exists proportion,
    hood_proportion yelp_df hood dollar_tier = Ok proportion /\ (0 <= proportion <= 1)%Q.
Proof.
  unfold hood_proportion.
  set (yelp_hood := mask (fun r => String.eqb (cra r) hood) yelp_df).
  destruct (Nat.eqb_spec (shape0 yelp_hood) 0) as [E|E].
  - exists 0%Q. split; [reflexivity|]. split; unfold Qle; cbn; lia.
  - destruct (py_truediv_counts
                (shape0 (mask (fun r => price r =? dollar_tier) yelp_hood))
                (shape0 yelp_hood)) as (v & Hv & Hunit & _).
    + lia.
    + unfold shape0, mask. apply filter_length_le.
    + exists v. now split.
Qed.

Lemma tier_eqb_neq (a b : tier) : a <> b -> tier_eqb a b = false.
Proof. destruct a, b; intros H; try reflexivity; contradiction H; reflexivity. Qed.

Lemma index_set_loc {R : Type} (df : frame R) (ls : list Z) (upd : R -> R) :
  index (set_loc df ls upd) = index df.
Proof.
  unfold index, set_loc. rewrite map_map. apply map_ext.
  intros lr. now destruct (existsb _ _).
Qed.

(** C10, as the code has it. On a [seattle_df] whose index labels are
    pairwise distinct, a call [dollar_rating(seattle_df, yelp_df, hood, t)]
    changes only the ["{t} dollar"] cell of the rows of neighbourhood
    [hood], which receive the proportion; every other cell of [seattle_df]
    keeps its value (the other rows are the same rows) and [yelp_df] is
    unchanged. *)
Theorem dollar_rating_frame
    (seattle_df : frame seattle_row) (yelp_df : frame yelp_row) (hood : string) (t : tier) :
  NoDup (index seattle_df) ->
  exists proportion seattle_df',
    hood_proportion yelp_df hood (tier_value t) = Ok proportion
    /\ dollar_rating seattle_df yelp_df hood t = Ok (seattle_df', yelp_df)
    /\ index seattle_df' = index seattle_df
    /\ forall i l row, nth_error seattle_df i = Some (l, row) ->
         exists row',
           nth_error seattle_df' i = Some (l, row')
           /\ neighborhood row' = neighborhood row
           /\ median_rent row' = median_rent row
           /\ median_home_value row' = median_home_value row
           /\ median_income row' = median_income row
           /\ (forall t', t' <> t -> dollar row' t' = dollar row t')
           /\ (neighborhood row <> hood -> row' = row)
           /\ (neighborhood row = hood -> dollar row' t = proportion).
Proof.
  intros Hnd.
  destruct (hood_proportion_total yelp_df hood (tier_value t)) as (p & Hp & _).
  exists p. eexists. unfold dollar_rating. rewrite Hp. cbn [bind].
  split; [reflexivity|]. split; [reflexivity|]. split; [apply index_set_loc|].
  intros i l row Hrow. unfold set_loc. rewrite nth_error_map, Hrow. cbn [option_map fst snd].
  set (hood_index := index (mask _ seattle_df)).
  assert (Hin : In (l, row) seattle_df) by (eapply nth_error_In; eassumption).
  destruct (existsb (Z.eqb l) hood_index) eqn:Ex.
  - assert (Hhood : neighborhood row = hood).
    { apply existsb_exists in Ex as (l' & Hl' & El). apply Z.eqb_eq in El. subst l'.
      unfold hood_index, index, mask in Hl'.
      apply in_map_iff in Hl' as ([l2 row2] & El2 & Hin2). cbn in El2. subst l2.
      apply filter_In in Hin2 as [Hin2 Hn2]. cbn in Hn2. apply String.eqb_eq in Hn2.
      now rewrite (NoDup_index_unique seattle_df l row row2 Hnd Hin Hin2). }
    eexists. split; [reflexivity|]. cbn.
    repeat split; try reflexivity.
    + intros t' Ht'. now rewrite tier_eqb_neq.
    + intros Hneq. contradiction.
    + intros _. unfold tier_eqb. now rewrite Z.eqb_refl.
  - exists row. repeat split; try reflexivity.
    intros Hhood. unfold hood_index in Ex.
    rewrite (existsb_index_mask _ seattle_df (l, row) Hin) in Ex; [discriminate|].
    cbn. now apply String.eqb_eq.
Qed.

Lemma dollar_rating_frame_witness :
  exists proportion seattle_df',
    hood_proportion (range_frame Sample.businesses) "Ballard" 2 = Ok proportion
    /\ dollar_rating (range_frame Sample.demographics) (range_frame Sample.businesses)
         "Ballard" Tier2 = Ok (seattle_df', range_frame Sample.businesses)
    /\ index seattle_df' = [0; 1; 2].
Proof.
  destruct (dollar_rating_frame (range_frame Sample.demographics)
              (range_frame Sample.businesses) "Ballard" Tier2)
    as (p & df' & Hp & Hcall & Hidx & _).
  - vm_compute. repeat constructor; cbn; intuition discriminate.
  - exists p, df'. repeat split; assumption.
Defined.

(** C10, as stated, fails on a frame with a repeated index label: the
    call for ["Ballard"] also overwrites the ["2 dollar"] cell of the
    ["Interbay"] row that shares its label. *)
Lemma dollar_rating_overwrites_shared_label :
  exists before seattle_df' after,
    nth_error Sample.duplicated_index 1 = Some (0, before)
    /\ neighborhood before = "Interbay"%string
    /\ dollar before Tier2 = 0%Q
    /\ dollar_rating Sample.duplicated_index (range_frame Sample.businesses)
         "Ballard" Tier2 = Ok (seattle_df', range_frame Sample.businesses)
    /\ nth_error seattle_df' 1 = Some (0, after)
    /\ neighborhood after = "Interbay"%string
    /\ (dollar after Tier2 == 1)%Q.
Proof.
  do 3 eexists. repeat split; try reflexivity.
Qed.

(* ------------------------------------------------------------------ *)
(** ** Runs of [radius_dollar_proportion] *)

Section Runs.

Variable location : coordinate.
Variable df : frame yelp_row.
Variable radius : Q.
Variable dollar_tier : Z.

Local Abbreviation step := (rdp_step location df radius dollar_tier).
Local Abbreviation steps := (rdp_steps location df radius dollar_tier).

Lemma final_state_inj (r1 r2 : result Q) : final_state r1 = final_state r2 -> r1 = r2.
Proof. destruct r1, r2; cbn; congruence. Qed.

(** A call that has ended takes no step. *)
Lemma final_state_stuck (nb : notebook) (r : result Q) (c : notebook * call_state) :
  ~ step (nb, final_state r) c.
Proof. intros H. destruct r; inversion H. Qed.


Lemma rdp_step_deterministic (c c1 c2 : notebook * call_state) :
  step c c1 -> step c c2 -> c1 = c2.
Proof.
  intros H1 H2. inversion H1; subst; inversion H2; subst;
    try reflexivity; try congruence; try lia.
Qed.


Lemma rdp_steps_deterministic (c : notebook * call_state) (nb1 nb2 : notebook)
    (r1 r2 : result Q) :
  steps c (nb1, final_state r1) -> steps c (nb2, final_state r2) ->
  r1 = r2 /\ nb1 = nb2.
Proof.
  intros H1. remember (nb1, final_state r1) as c1 eqn:E1. revert E1.
  induction H1 as [c|c cm c1 Hstep _ IH]; intros E1 H2; subst.
  - inversion H2 as [|? cm ? Hstep _]; subst.
    + split; [now apply final_state_inj|congruence].
    + now apply final_state_stuck in Hstep.
  - inversion H2 as [|? cm' ? Hstep' Hrest]; subst.
    + now apply final_state_stuck in Hstep.
    + rewrite <- (rdp_step_deterministic _ _ _ Hstep Hstep') in Hrest.
      now apply IH.
Qed.

(** The loop of the function, from any point on, is a sequence of steps. *)
Lemma rdp_steps_loop (nb : notebook) (m i : nat) (indices : list nat) :
  (i + m = shape0 df)%nat ->
  steps (nb, Looping i indices)
    (nb, final_state
           (found <- within_loop_checked (nb_d nb) location df radius (seq i m) indices ;;
            proportion_of df found dollar_tier)).
Proof.
  revert i indices. induction m as [|m IH]; intros i indices Hlen.
  - cbn [seq within_loop_checked bind].
    destruct (proportion_of df indices dollar_tier) as [v|e] eqn:E.
    + eapply steps_cons; [|apply steps_refl]. apply step_return; [lia|exact E].
    + eapply steps_cons; [|apply steps_refl]. apply step_proportion_raises; [lia|exact E].
  - cbn [seq within_loop_checked].
    destruct (loc_float df (Z.of_nat i) latitude) as [lat|e] eqn:Elat; cbn [bind].
    2:{ eapply steps_cons; [|apply steps_refl].
        apply step_latitude_raises; [lia|exact Elat]. }
    destruct (loc_float df (Z.of_nat i) longitude) as [long|e] eqn:Elong; cbn [bind].
    2:{ eapply steps_cons; [|apply steps_refl].
        eapply step_longitude_raises; [lia|exact Elat|exact Elong]. }
    destruct (nb_d nb location (lat, long)) as [apart|e] eqn:Emiles; cbn [bind].
    2:{ eapply steps_cons; [|apply steps_refl].
        eapply step_distance_raises; [lia|exact Elat|exact Elong|exact Emiles]. }
    destruct (Qle_bool apart radius) eqn:Etest.
    + eapply steps_cons; [|apply IH; lia].
      eapply step_append; [lia|exact Elat|exact Elong|exact Emiles|exact Etest].
    + eapply steps_cons; [|apply IH; lia].
      eapply step_skip; [lia|exact Elat|exact Elong|exact Emiles|exact Etest].
Qed.

(** Every call has a run, which ends with the value of the function for the
    distance that [d] gives. *)
Lemma rdp_run_exists (nb : notebook) :
  rdp_run nb location df radius dollar_tier
    (radius_dollar_proportion_checked (nb_d nb) location df radius dollar_tier) nb.
Proof. unfold rdp_run, radius_dollar_proportion_checked. apply rdp_steps_loop. lia. Qed.


(** Where [d] is geopy's distance and returns for every row, the runs end
    with the value of [radius_dollar_proportion]. *)
Lemma rdp_run_total (distance : coordinate -> coordinate -> Q) (nb nb' : notebook)
    (r : result Q) :
  (forall lr, In lr df ->
     nb_d nb location (latitude (snd lr), longitude (snd lr))
     = Ok (distance location (latitude (snd lr), longitude (snd lr)))) ->
  rdp_run nb location df radius dollar_tier r nb' ->
  r = radius_dollar_proportion distance location df radius dollar_tier /\ nb' = nb.
Proof.
  intros Hd Hrun.
  destruct (rdp_steps_deterministic _ _ _ _ _ Hrun (rdp_run_exists nb)) as [-> ->].
  split; [|reflexivity]. now apply radius_dollar_proportion_checked_agrees.
Qed.


End Runs.



(* ------------------------------------------------------------------ *)
(** ** Loops over the rows of a frame with the default index *)

Section RowLoops.

Context {R : Type}.

Lemma upd_at_length (i : nat) (upd : R -> R) (rows : list R) :
  List.length (upd_at i upd rows) = List.length rows.
Proof.
  revert i. induction rows as [|r rows IH]; intros [|i]; cbn; try reflexivity.
  now rewrite IH.
Qed.

Lemma nth_error_upd_at (i : nat) (upd : R -> R) (rows : list R) (r : R) :
  nth_error rows i = Some r -> nth_error (upd_at i upd rows) i = Some (upd r).
Proof.
  revert i. induction rows as [|r0 rows IH]; intros [|i] H; cbn in *; try discriminate.
  - congruence.
  - now apply IH.
Qed.

Lemma upd_at_ext (i : nat) (f g : R -> R) (rows : list R) (r : R) :
  nth_error rows i = Some r -> f r = g r -> upd_at i f rows = upd_at i g rows.
Proof.
  revert i. induction rows as [|r0 rows IH]; intros [|i] H E; cbn in *; try discriminate.
  - congruence.
  - f_equal. now apply IH.
Qed.

Lemma upd_at_compose (i : nat) (f g : R -> R) (rows : list R) :
  upd_at i g (upd_at i f rows) = upd_at i (fun r => g (f r)) rows.
Proof.
  revert i. induction rows as [|r0 rows IH]; intros [|i]; cbn; try reflexivity.
  now rewrite IH.
Qed.

Lemma upd_at_id (i : nat) (rows : list R) : upd_at i (fun r => r) rows = rows.
Proof.
  revert i. induction rows as [|r0 rows IH]; intros [|i]; cbn; try reflexivity.
  now rewrite IH.
Qed.

Lemma upd_at_middle (upd : R -> R) (done todo : list R) (r : R) :
  upd_at (List.length done) upd (done ++ r :: todo) = done ++ upd r :: todo.
Proof. induction done as [|d done IH]; cbn; [reflexivity|]. now rewrite IH. Qed.

Lemma set_loc_labelled_below (k j : nat) (upd : R -> R) (rows : list R) :
  (j < k)%nat -> set_loc (labelled k rows) [Z.of_nat j] upd = labelled k rows.
Proof.
  revert k. induction rows as [|r rows IH]; intros k Hlt; [reflexivity|].
  rewrite labelled_cons. unfold set_loc in *. cbn [map existsb fst].
  destruct (Z.eqb_spec (Z.of_nat k) (Z.of_nat j)) as [E|_]; [lia|].
  cbn [orb]. f_equal. apply IH. lia.
Qed.

Lemma set_loc_labelled (k i : nat) (upd : R -> R) (rows : list R) :
  set_loc (labelled k rows) [Z.of_nat (k + i)] upd = labelled k (upd_at i upd rows).
Proof.
  revert k i. induction rows as [|r rows IH]; intros k i; [now destruct i|].
  rewrite labelled_cons. destruct i as [|i]; cbn [upd_at]; rewrite labelled_cons.
  - rewrite Nat.add_0_r. unfold set_loc. cbn [map existsb fst snd].
    rewrite Z.eqb_refl. cbn [orb]. f_equal.
    apply (set_loc_labelled_below (S k) k). lia.
  - unfold set_loc. cbn [map existsb fst].
    destruct (Z.eqb_spec (Z.of_nat k) (Z.of_nat (k + S i))) as [E|_]; [lia|].
    cbn [orb]. f_equal.
    replace (k + S i)%nat with (S k + i)%nat by lia. apply IH.
Qed.

Lemma set_loc_range_frame (i : nat) (upd : R -> R) (rows : list R) :
  set_loc (range_frame rows) [Z.of_nat i] upd = range_frame (upd_at i upd rows).
Proof. rewrite !range_frame_labelled. apply (set_loc_labelled 0 i). Qed.

(** A loop whose every iteration updates the row at position [i]. *)
Lemma for_each_upd_at {A : Type} (xs : list A) (body : A -> frame R -> outcome (frame R))
    (f : A -> R -> R) (i : nat) :
  (forall x rows r, nth_error rows i = Some r ->
     body x (range_frame rows) = Done (range_frame (upd_at i (f x) rows))) ->
  forall rows r, nth_error rows i = Some r ->
    for_each xs body (range_frame rows)
    = Done (range_frame (upd_at i (fun r => fold_left (fun r x => f x r) xs r) rows)).
Proof.
  intros Hbody. induction xs as [|x xs IH]; intros rows r Hr.
  - cbn. now rewrite upd_at_id.
  - cbn [for_each fold_left]. rewrite (Hbody x rows r Hr).
    rewrite (IH _ (f x r) (nth_error_upd_at i (f x) rows r Hr)).
    now rewrite upd_at_compose.
Qed.

(** A loop whose iteration [i] updates the row at position [i]. *)
Lemma for_each_rows (body : nat -> frame R -> outcome (frame R)) (F : R -> R) :
  (forall i rows r, nth_error rows i = Some r ->
     body i (range_frame rows) = Done (range_frame (upd_at i F rows))) ->
  forall done todo,
    for_each (seq (List.length done) (List.length todo)) body (range_frame (done ++ todo))
    = Done (range_frame (done ++ map F todo)).
Proof.
  intros Hbody done todo. revert done.
  induction todo as [|r todo IH]; intros done; [reflexivity|].
  cbn [List.length seq for_each map].
  assert (Hr : nth_error (done ++ r :: todo) (List.length done) = Some r)
    by (rewrite nth_error_app2, Nat.sub_diag by lia; reflexivity).
  rewrite (Hbody _ _ _ Hr), upd_at_middle.
  specialize (IH (done ++ [F r])).
  rewrite <- !app_assoc, length_app, Nat.add_comm in IH. exact IH.
Qed.

End RowLoops.

(* ------------------------------------------------------------------ *)
(** ** The metric loop *)

Section MetricLoop.

Variable distance : coordinate -> coordinate -> Q.

(** On a frame of records with the default index the call never raises. *)
Lemma radius_dollar_proportion_total (location : coordinate) (rows : list yelp_row)
    (radius : Q) (dollar_tier : Z) :
  radius_dollar_proportion distance location (range_frame rows) radius dollar_tier
  = Ok (proportion_value distance location (range_frame rows) radius dollar_tier).
Proof.
  unfold proportion_value.
  destruct (radius_dollar_proportion distance location (range_frame rows) radius dollar_tier)
    as [v|e] eqn:E; [reflexivity|].
  rewrite radius_dollar_proportion_range_frame in E. cbv zeta in E.
  destruct (Nat.eqb_spec (List.length (nearby distance location rows radius)) 0) as [H0|H0];
    [discriminate|].
  destruct (py_truediv_counts (tier_count dollar_tier (nearby distance location rows radius))
              (List.length (nearby distance location rows radius)) ltac:(lia)
              (tier_count_le _ _)) as (v & Hv & _).
  congruence.
Qed.

Lemma populate_cell_range_frame (yelp_rows : list yelp_row) (i : nat) (dollar : tier)
    (r : radius) (rows : list gps_row) (g : gps_row) :
  nth_error rows i = Some g ->
  populate_cell distance (range_frame yelp_rows) i dollar r (range_frame rows)
  = Done (range_frame
            (upd_at i (fill_cell distance (range_frame yelp_rows) dollar r) rows)).
Proof.
  intros Hg. unfold populate_cell.
  rewrite (loc_float_range_frame i rows gps_latitude g Hg).
  rewrite (loc_float_range_frame i rows gps_longitude g Hg).
  cbn [bind]. rewrite radius_dollar_proportion_total. cbn [bind attempt].
  rewrite set_loc_range_frame. do 2 f_equal.
  apply (upd_at_ext i _ _ rows g Hg). reflexivity.
Qed.

Lemma populate_metrics_range_frame (yelp_rows : list yelp_row) (rows : list gps_row) :
  populate_metrics distance (range_frame yelp_rows) (range_frame rows)
  = Done (range_frame (map (fill_row distance (range_frame yelp_rows)) rows)).
Proof.
  unfold populate_metrics. rewrite shape0_range_frame.
  apply (for_each_rows _ (fill_row distance (range_frame yelp_rows)) ) with (done := []).
  intros i rows' g Hg.
  apply (for_each_upd_at tiers _
           (fun dollar g => fold_left
              (fun g r => fill_cell distance (range_frame yelp_rows) dollar r g) radii g)
           i) with (r := g); [|exact Hg].
  intros dollar rows'' g' Hg'.
  apply (for_each_upd_at radii _ (fill_cell distance (range_frame yelp_rows) dollar) i)
    with (r := g'); [|exact Hg'].
  intros r rows3 g3 Hg3. apply (populate_cell_range_frame _ _ _ _ _ g3 Hg3).
Qed.

Lemma metric_fill_row (yelp : frame yelp_row) (g : gps_row) (r : radius) (t : tier) :
  metric (fill_row distance yelp g) r t
  = proportion_value distance (gps_latitude g, gps_longitude g) yelp (radius_miles r)
      (tier_value t).
Proof.
  destruct r, t;
    cbv [fill_row fill_cell fold_left tiers radii set_metric metric gps_latitude
         gps_longitude radius_eqb tier_eqb tier_value Z.eqb Pos.eqb andb];
    reflexivity.
Qed.

Lemma fill_row_keeps (yelp : frame yelp_row) (g : gps_row) :
  gps_latitude (fill_row distance yelp g) = gps_latitude g
  /\ gps_longitude (fill_row distance yelp g) = gps_longitude g
  /\ gps_neighborhood (fill_row distance yelp g) = gps_neighborhood g.
Proof. repeat split. Qed.

(** The value the loop leaves in a cell, from the businesses of the whole
    frame within the radius of the point. *)
Lemma metric_fill_row_counts (yelp_rows : list yelp_row) (g : gps_row) (r : radius)
    (t : tier) :
  let near :=
    filter (fun b => Qle_bool
                       (distance (gps_latitude g, gps_longitude g) (latitude b, longitude b))
                       (radius_miles r))
      yelp_rows in
  let of_tier := filter (fun b => price b =? tier_value t) near in
  (near = [] -> metric (fill_row distance (range_frame yelp_rows) g) r t = 0%Q)
  /\ (near <> [] ->
      metric (fill_row distance (range_frame yelp_rows) g) r t
      = round64 (Qdiv (inject_Z (Z.of_nat (List.length of_tier)))
                   (inject_Z (Z.of_nat (List.length near))))).
Proof.
  pose proof (radius_dollar_proportion_total (gps_latitude g, gps_longitude g) yelp_rows
                (radius_miles r) (tier_value t)) as Hv.
  rewrite <- metric_fill_row in Hv.
  set (m := metric (fill_row distance (range_frame yelp_rows) g) r t) in *.
  rewrite radius_dollar_proportion_range_frame in Hv.
  unfold nearby, tier_count, in_radius in Hv. cbv zeta in Hv. cbv zeta.
  destruct (filter _ yelp_rows) as [|b near] eqn:E.
  - split; [intros _|intros H; now contradiction H].
    cbn [List.length Nat.eqb] in Hv. congruence.
  - split; [discriminate|intros _]. cbn [List.length Nat.eqb] in Hv.
    unfold py_truediv in Hv.
    destruct (Z.eqb_spec (Z.of_nat (S (List.length near))) 0) as [H0|_]; [lia|].
    cbn [List.length]. congruence.
Qed.

(** The neighbourhood of a business plays no part in the call. *)
Lemma proportion_value_with_cra (region_of : yelp_row -> string) (location : coordinate)
    (rows : list yelp_row) (radius : Q) (dollar_tier : Z) :
  proportion_value distance location
    (range_frame (map (fun y => with_cra (region_of y) y) rows)) radius dollar_tier
  = proportion_value distance location (range_frame rows) radius dollar_tier.
Proof.
  unfold proportion_value. rewrite !radius_dollar_proportion_range_frame. cbv zeta.
  set (f := fun y => with_cra (region_of y) y).
  assert (Hnear : nearby distance location (map f rows) radius
                  = map f (nearby distance location rows radius)).
  { unfold nearby. induction rows as [|y rows IH]; [reflexivity|].
    cbn [map filter]. change (in_radius distance location radius (f y))
      with (in_radius distance location radius y).
    destruct (in_radius distance location radius y); cbn [map]; now rewrite IH. }
  assert (Hcount : forall l, tier_count dollar_tier (map f l) = tier_count dollar_tier l).
  { unfold tier_count. induction l as [|y l IH]; [reflexivity|].
    cbn [map filter]. change (price (f y)) with (price y).
    destruct (price y =? dollar_tier); cbn [List.length]; now rewrite IH. }
  now rewrite Hnear, Hcount, length_map.
Qed.

(** C6. For every point of [gps_df] the loop fills each of the eight
    ["{radius}mi {tier} dollar"] cells with the value of
    [radius_dollar_proportion] at the point's coordinates over the whole
    [yelp] frame: with [near] the businesses of the whole frame whose
    distance to the point is at most the radius, whatever their
    neighbourhood, the cell holds [0] when [near] is empty and otherwise
    the float quotient of the number of businesses of the tier in [near]
    by the number of businesses in [near]. The neighbourhood assigned to
    the point, and the neighbourhoods of the businesses, play no part: with
    any other assignment the eight values are the same. *)
Theorem metrics_use_all_businesses (yelp_rows : list yelp_row) (gps_rows : list gps_row) :
  exists out,
    populate_metrics distance (range_frame yelp_rows) (range_frame gps_rows)
    = Done (range_frame out)
    /\ List.length out = List.length gps_rows
    /\ (forall i g, nth_error gps_rows i = Some g ->
          exists g',
            nth_error out i = Some g'
            /\ gps_latitude g' = gps_latitude g
            /\ gps_longitude g' = gps_longitude g
            /\ gps_neighborhood g' = gps_neighborhood g
            /\ (forall r t,
                  radius_dollar_proportion distance (gps_latitude g, gps_longitude g)
                    (range_frame yelp_rows) (radius_miles r) (tier_value t)
                  = Ok (metric g' r t))
            /\ (forall r t,
                  let near :=
                    filter (fun b => Qle_bool
                                       (distance (gps_latitude g, gps_longitude g)
                                          (latitude b, longitude b))
                                       (radius_miles r))
                      yelp_rows in
                  let of_tier := filter (fun b => price b =? tier_value t) near in
                  (near = [] -> metric g' r t = 0%Q)
                  /\ (near <> [] ->
                      metric g' r t
                      = round64 (Qdiv (inject_Z (Z.of_nat (List.length of_tier)))
                                   (inject_Z (Z.of_nat (List.length near)))))))
    /\ (forall (region_of_point : gps_row -> string)
               (region_of_business : yelp_row -> string),
          exists out2,
            populate_metrics distance
              (range_frame (map (fun y => with_cra (region_of_business y) y) yelp_rows))
              (range_frame (map (fun g => with_neighborhood (region_of_point g) g) gps_rows))
            = Done (range_frame out2)
            /\ forall i g' g2', nth_error out i = Some g' -> nth_error out2 i = Some g2' ->
                 forall r t, metric g2' r t = metric g' r t).
Proof.
  exists (map (fill_row distance (range_frame yelp_rows)) gps_rows).
  split; [apply populate_metrics_range_frame|].
  split; [apply length_map|]. split.
  - intros i g Hg. exists (fill_row distance (range_frame yelp_rows) g).
    split; [now rewrite nth_error_map, Hg|].
    do 3 (split; [reflexivity|]). split.
    { intros r t. rewrite metric_fill_row. apply radius_dollar_proportion_total. }
    intros r t. apply metric_fill_row_counts.
  - intros region_of_point region_of_business. eexists.
    split; [apply populate_metrics_range_frame|].
    intros i g' g2' H1 H2 r t.
    rewrite nth_error_map in H1. rewrite !nth_error_map in H2.
    destruct (nth_error gps_rows i) as [g|]; [|discriminate].
    cbn [option_map] in H1, H2. injection H1 as <-. injection H2 as <-.
    rewrite !metric_fill_row. apply proportion_value_with_cra.
Qed.

End MetricLoop.

(** A point assigned to Montlake, half a mile from two Ballard businesses:
    its metrics count them. *)
Example metrics_count_other_regions :
  exists out g',
    populate_metrics Sample.taxicab (range_frame Sample.businesses)
      (range_frame [mk_gps 0 0 "Montlake" (fun _ _ => 0%Q) 0 0 0])
    = Done (range_frame out)
    /\ nth_error out 0 = Some g'
    /\ (metric g' HalfMile Tier2 == 1)%Q
    /\ (metric g' OneMile Tier2 == 1)%Q
    /\ (metric g' OneMile Tier1 == 0)%Q.
Proof.
  do 2 eexists. rewrite populate_metrics_range_frame.
  split; [reflexivity|]. split; [reflexivity|].
  repeat split; vm_compute; reflexivity.
Qed.

(* ------------------------------------------------------------------ *)
(** ** The demographics join *)

Lemma mask_nil_iff {R : Type} (p : R -> bool) (df : frame R) :
  mask p df = [] <-> forall lr, In lr df -> p (snd lr) = false.
Proof.
  unfold mask. induction df as [|lr df IH]; cbn.
  - split; [intros _ ? []|reflexivity].
  - destruct (p (snd lr)) eqn:E; split.
    + discriminate.
    + intros H. specialize (H lr (or_introl eq_refl)). congruence.
    + intros H lr' [<-|Hin]; [exact E|]. now apply IH.
    + intros H. apply IH. intros lr' Hin. apply H. now right.
Qed.

(** One iteration on a frame with the default index: the row is joined
    when exactly one row of the table has its neighbourhood; otherwise
    [item] raises and the frame is left as it was. *)
Lemma join_row_range_frame (seattle_rent : frame seattle_row) (i : nat)
    (rows : list gps_row) (g : gps_row) :
  nth_error rows i = Some g ->
  join_row seattle_rent i (range_frame rows) =
  match mask (fun r => String.eqb (neighborhood r) (gps_neighborhood g)) seattle_rent with
  | [lr] =>
      Done (range_frame
              (upd_at i (set_demographics (median_income (snd lr)) (median_rent (snd lr))
                           (median_home_value (snd lr))) rows))
  | _ => Raised ValueError (range_frame rows)
  end.
Proof.
  intros Hg. unfold join_row.
  rewrite (loc_item_range_frame i rows gps_neighborhood g Hg). cbn [bind].
  destruct (mask _ seattle_rent) as [|lr [|lr2 rest]]; cbn [item bind attempt];
    try reflexivity.
  now rewrite set_loc_range_frame.
Qed.

Lemma join_loop_raises (seattle_rent : frame seattle_row) (todo : list gps_row) :
  forall (done : list gps_row) (j : nat) (g : gps_row),
    nth_error todo j = Some g ->
    mask (fun r => String.eqb (neighborhood r) (gps_neighborhood g)) seattle_rent = [] ->
    exists st,
      for_each (seq (List.length done) (List.length todo)) (join_row seattle_rent)
        (range_frame (done ++ todo))
      = Raised ValueError (range_frame st)
      /\ nth_error st (List.length done + j) = Some g.
Proof.
  induction todo as [|g0 todo IH]; intros done j g Hj Hnone; [now destruct j|].
  cbn [List.length seq for_each].
  assert (H0 : nth_error (done ++ g0 :: todo) (List.length done) = Some g0)
    by (rewrite nth_error_app2, Nat.sub_diag by lia; reflexivity).
  rewrite (join_row_range_frame _ _ _ _ H0).
  destruct (mask (fun r => String.eqb (neighborhood r) (gps_neighborhood g0)) seattle_rent)
    as [|lr [|lr2 rest]] eqn:Em.
  - exists (done ++ g0 :: todo). split; [reflexivity|].
    now rewrite nth_error_app2, Nat.add_comm, Nat.add_sub by lia.
  - destruct j as [|j]; cbn in Hj.
    + injection Hj as ->. congruence.
    + rewrite upd_at_middle.
      specialize (IH (done ++ [set_demographics (median_income (snd lr))
                                 (median_rent (snd lr)) (median_home_value (snd lr)) g0])
                    j g Hj Hnone).
      rewrite <- app_assoc, length_app, (Nat.add_comm (List.length done)) in IH.
      cbn [List.length app Nat.add] in IH.
      destruct IH as (st & Hst & Hnth). exists st. split; [exact Hst|].
      now replace (List.length done + S j)%nat with (S (List.length done + j)) by lia.
  - exists (done ++ g0 :: todo). split; [reflexivity|].
    now rewrite nth_error_app2, Nat.add_comm, Nat.add_sub by lia.
Qed.

(** C7. When the neighbourhood of a sampled point has no row in the
    demographics table, the join raises ([ValueError], from the
    single-value extraction): the export does not run, so no row is
    written for that point, with zeros or otherwise. In memory the row of
    the point is left as it was. *)
Theorem join_raises_without_demographics
    (seattle_rent : frame seattle_row) (gps_rows : list gps_row) (i : nat) (g : gps_row) :
  nth_error gps_rows i = Some g ->
  (forall lr, In lr seattle_rent -> neighborhood (snd lr) <> gps_neighborhood g) ->
  exists st,
    join_demographics seattle_rent (range_frame gps_rows)
    = Raised ValueError (range_frame st)
    /\ join_and_export seattle_rent (range_frame gps_rows)
       = (Raised ValueError (range_frame st), None)
    /\ nth_error st i = Some g.
Proof.
  intros Hg Hnone.
  assert (Hmask : mask (fun r => String.eqb (neighborhood r) (gps_neighborhood g))
                    seattle_rent = []).
  { apply mask_nil_iff. intros lr Hin. apply String.eqb_neq. now apply Hnone. }
  destruct (join_loop_raises seattle_rent gps_rows [] i g Hg Hmask) as (st & Hst & Hnth).
  cbn [List.length app Nat.add] in Hst, Hnth.
  exists st. unfold join_and_export, join_demographics.
  rewrite shape0_range_frame, Hst. repeat split. exact Hnth.
Qed.

Lemma join_raises_without_demographics_witness :
  exists st,
    join_demographics (range_frame Sample.demographics) (range_frame Sample.points)
    = Raised ValueError (range_frame st)
    /\ join_and_export (range_frame Sample.demographics) (range_frame Sample.points)
       = (Raised ValueError (range_frame st), None)
    /\ nth_error st 2 = Some (mk_gps 2 0 "Fremont" (fun _ _ => 0%Q) 0 0 0).
Proof.
  apply (join_raises_without_demographics (range_frame Sample.demographics)
           Sample.points 2).
  - reflexivity.
  - intros lr Hin. vm_compute in Hin.
    destruct Hin as [<-|[<-|[<-|[]]]]; cbn; discriminate.
Defined.

(** With a row for every neighbourhood sampled the join completes and the
    export writes the joined rows. *)
Example join_completes :
  exists st rows,
    join_and_export (range_frame Sample.demographics) (range_frame (firstn 2 Sample.points))
    = (Done st, Some rows)
    /\ values st = rows
    /\ map gps_median_income rows = [79162; 74679].
Proof. do 2 eexists. repeat split. Qed.

(* ------------------------------------------------------------------ *)
(** ** The scenario of the specification

    Businesses at 0.3, 0.8 and 2 miles (tiers 2, 2 and 1): within half a
    mile and within a mile every business selected is of tier 2, and the
    business two miles away is never selected. *)

Example scenario_half_mile :
  within Sample.taxicab Sample.center (range_frame Sample.businesses) (radius_miles HalfMile)
  = Ok [0%nat]
  /\ exists v,
       radius_dollar_proportion Sample.taxicab Sample.center
         (range_frame Sample.businesses) (radius_miles HalfMile) 2 = Ok v
       /\ (v == 1)%Q.
Proof. split; [reflexivity|]. eexists. split; reflexivity. Qed.

Example scenario_one_mile :
  within Sample.taxicab Sample.center (range_frame Sample.businesses) (radius_miles OneMile)
  = Ok [0%nat; 1%nat]
  /\ exists v,
       radius_dollar_proportion Sample.taxicab Sample.center
         (range_frame Sample.businesses) (radius_miles OneMile) 2 = Ok v
       /\ (v == 1)%Q.
Proof. split; [reflexivity|]. eexists. split; reflexivity. Qed.

(** On a frame whose labels are not [0 .. n-1] the call raises: the loop
    looks rows up by label. *)
Example shifted_index_raises :
  radius_dollar_proportion Sample.taxicab Sample.center
    (labelled 1 Sample.businesses) 1 2 = Raise KeyError.
Proof. reflexivity. Qed.

(* ================================================================== *)
(** * Further properties *)

(** ** [radius_dollar_proportion] on any frame *)

Section AnyFrame.

Variable distance : coordinate -> coordinate -> Q.
Variable miles : coordinate -> coordinate -> result Q.

Lemma loc_float_cases {R A : Type} (df : frame R) (i : Z) (col : R -> A) :
  (exists lr, loc df i = [lr] /\ loc_float df i col = Ok (col (snd lr)))
  \/ ((forall lr, loc df i <> [lr])
      /\ (loc_float df i col = Raise KeyError \/ loc_float df i col = Raise TypeError)).
Proof.
  unfold loc_float. destruct (loc df i) as [|lr [|lr2 rest]].
  - right. split; [discriminate|now left].
  - left. now exists lr.
  - right. split; [discriminate|now right].
Qed.

Lemma within_loop_cases (location : coordinate) (df : frame yelp_row) (radius : Q)
    (todo acc : list nat) :
  (exists found,
     within_loop distance location df radius todo acc = Ok found
     /\ (forall i, In i todo -> exists lr, loc df (Z.of_nat i) = [lr])
     /\ (forall j, In j found -> In j acc \/ In j todo))
  \/ ((exists i, In i todo /\ forall lr, loc df (Z.of_nat i) <> [lr])
      /\ (within_loop distance location df radius todo acc = Raise KeyError
          \/ within_loop distance location df radius todo acc = Raise TypeError)).
Proof.
  revert acc. induction todo as [|i todo IH]; intros acc.
  - left. exists acc. split; [reflexivity|]. split; [intros ? []|now left].
  - cbn [within_loop].
    destruct (loc_float_cases df (Z.of_nat i) latitude) as [(lr & Hlr & Elat)|[Hno Elat]].
    + assert (Elong : loc_float df (Z.of_nat i) longitude = Ok (longitude (snd lr)))
        by (unfold loc_float; now rewrite Hlr).
      rewrite Elat, Elong. cbn [bind].
      destruct (Qle_bool _ radius).
      * destruct (IH (acc ++ [i])) as [(found & Hf & Hall & Hin)|[(k & Hk & Hno) Hr]].
        -- left. exists found. split; [exact Hf|]. split.
           ++ intros k [<-|Hk]; [now exists lr|now apply Hall].
           ++ intros j Hj. destruct (Hin j Hj) as [Ha|Ht]; [|right; now right].
              apply in_app_or in Ha as [Ha|[<-|[]]]; [now left|right; now left].
        -- right. split; [|exact Hr]. exists k. split; [now right|exact Hno].
      * destruct (IH acc) as [(found & Hf & Hall & Hin)|[(k & Hk & Hno) Hr]].
        -- left. exists found. split; [exact Hf|]. split.
           ++ intros k [<-|Hk]; [now exists lr|now apply Hall].
           ++ intros j Hj. destruct (Hin j Hj) as [Ha|Ht]; [now left|right; now right].
        -- right. split; [|exact Hr]. exists k. split; [now right|exact Hno].
    + right. split; [exists i; split; [now left|exact Hno]|].
      destruct Elat as [-> | ->]; cbn [bind]; [now left|now right].
Qed.

(** Positions below the number of rows never make the proportion raise. *)
Lemma proportion_of_total (df : frame yelp_row) (indices : list nat) (dollar_tier : Z) :
  (forall j, In j indices -> (j < shape0 df)%nat) ->
  exists v, proportion_of df indices dollar_tier = Ok v /\ (0 <= v <= 1)%Q.
Proof.
  intros Hlt. unfold proportion_of.
  destruct (Nat.eqb_spec (List.length indices) 0) as [E|E].
  - exists 0%Q. split; [reflexivity|]. split; unfold Qle; cbn; lia.
  - destruct (iloc_values df indices) as (sb & Hsb & Hmap);
      [now apply Forall_forall|].
    rewrite Hsb. cbn [bind].
    assert (Hlen : shape0 sb = List.length indices).
    { unfold shape0. rewrite <- (length_map Some sb), Hmap. apply length_map. }
    destruct (py_truediv_counts (shape0 (mask (fun r => price r =? dollar_tier) sb))
                (shape0 sb)) as (v & Hv & Hunit & _).
    + lia.
    + unfold shape0, mask. apply filter_length_le.
    + exists v. now split.
Qed.

(** How the loop ends when geopy may raise: with the positions found, every
    label visited being the label of one row whose distance geopy returns;
    or with the exception of the first label that is not the label of one
    row, or of the first row that geopy refuses. *)
Lemma within_loop_checked_cases (location : coordinate) (df : frame yelp_row) (radius : Q)
    (todo acc : list nat) :
  (exists found,
     within_loop_checked miles location df radius todo acc = Ok found
     /\ (forall i, In i todo ->
           exists lr apart,
             loc df (Z.of_nat i) = [lr]
             /\ miles location (latitude (snd lr), longitude (snd lr)) = Ok apart)
     /\ (forall j, In j found -> In j acc \/ In j todo))
  \/ (exists i e,
        In i todo
        /\ within_loop_checked miles location df radius todo acc = Raise e
        /\ (((forall lr, loc df (Z.of_nat i) <> [lr]) /\ (e = KeyError \/ e = TypeError))
            \/ (exists lr,
                  loc df (Z.of_nat i) = [lr]
                  /\ miles location (latitude (snd lr), longitude (snd lr)) = Raise e))).
Proof.
  revert acc. induction todo as [|i todo IH]; intros acc.
  - left. exists acc. split; [reflexivity|]. split; [intros ? []|now left].
  - cbn [within_loop_checked].
    destruct (loc_float_cases df (Z.of_nat i) latitude) as [(lr & Hlr & Elat)|[Hno Elat]].
    + assert (Elong : loc_float df (Z.of_nat i) longitude = Ok (longitude (snd lr)))
        by (unfold loc_float; now rewrite Hlr).
      rewrite Elat, Elong. cbn [bind].
      destruct (miles location (latitude (snd lr), longitude (snd lr))) as [apart|e] eqn:Em;
        cbn [bind].
      2:{ right. exists i, e. split; [now left|]. split; [reflexivity|].
          right. exists lr. now split. }
      assert (Hstep : forall acc',
                (exists found,
                   within_loop_checked miles location df radius todo acc' = Ok found
                   /\ (forall k, In k (i :: todo) ->
                         exists lr' apart',
                           loc df (Z.of_nat k) = [lr']
                           /\ miles location (latitude (snd lr'), longitude (snd lr'))
                              = Ok apart')
                   /\ (forall j, In j found -> In j acc' \/ In j todo))
                \/ (exists k e,
                      In k (i :: todo)
                      /\ within_loop_checked miles location df radius todo acc' = Raise e
                      /\ (((forall lr', loc df (Z.of_nat k) <> [lr'])
                           /\ (e = KeyError \/ e = TypeError))
                          \/ (exists lr',
                                loc df (Z.of_nat k) = [lr']
                                /\ miles location (latitude (snd lr'), longitude (snd lr'))
                                   = Raise e)))).
      { intros acc'.
        destruct (IH acc') as [(found & Hf & Hall & Hin)|(k & e & Hk & Hr & Hwhy)].
        - left. exists found. split; [exact Hf|]. split; [|exact Hin].
          intros k [<-|Hk]; [now exists lr, apart|now apply Hall].
        - right. exists k, e. split; [now right|]. now split. }
      destruct (Qle_bool apart radius).
      * destruct (Hstep (acc ++ [i])) as [(found & Hf & Hall & Hin)|Hraise].
        -- left. exists found. split; [exact Hf|]. split; [exact Hall|].
           intros j Hj. destruct (Hin j Hj) as [Ha|Ht]; [|right; now right].
           apply in_app_or in Ha as [Ha|[<-|[]]]; [now left|right; now left].
        -- right. exact Hraise.
      * destruct (Hstep acc) as [(found & Hf & Hall & Hin)|Hraise].
        -- left. exists found. split; [exact Hf|]. split; [exact Hall|].
           intros j Hj. destruct (Hin j Hj) as [Ha|Ht]; [now left|right; now right].
        -- right. exact Hraise.
    + right. destruct Elat as [E|E]; rewrite E; cbn [bind].
      * exists i, KeyError. split; [now left|]. split; [reflexivity|].
        left. split; [exact Hno|now left].
      * exists i, TypeError. split; [now left|]. split; [reflexivity|].
        left. split; [exact Hno|now right].
Qed.

(** X1. On any frame, with geopy's distance as a call that may raise, the
    call returns a value exactly when each of the labels [0 .. n-1] is the
    label of one row and one only, and geopy returns the distance from the
    location to each of these rows; the value is then in [[0, 1]].
    Otherwise it raises, for some label below [n]: [KeyError] or
    [TypeError] from the look-up of a label that is not the label of one
    row, or the exception geopy raised on the row of the label. *)
Theorem radius_dollar_proportion_needs_default_labels
    (location : coordinate) (df : frame yelp_row) (radius : Q) (dollar_tier : Z) :
  ((exists v, radius_dollar_proportion_checked miles location df radius dollar_tier = Ok v)
   <-> (forall i, (i < shape0 df)%nat ->
          exists lr apart,
            loc df (Z.of_nat i) = [lr]
            /\ miles location (latitude (snd lr), longitude (snd lr)) = Ok apart))
  /\ (forall v,
        radius_dollar_proportion_checked miles location df radius dollar_tier = Ok v ->
        (0 <= v <= 1)%Q)
  /\ (forall e,
        radius_dollar_proportion_checked miles location df radius dollar_tier = Raise e ->
        exists i,
          (i < shape0 df)%nat
          /\ (((forall lr, loc df (Z.of_nat i) <> [lr]) /\ (e = KeyError \/ e = TypeError))
              \/ (exists lr,
                    loc df (Z.of_nat i) = [lr]
                    /\ miles location (latitude (snd lr), longitude (snd lr)) = Raise e))).
Proof.
  unfold radius_dollar_proportion_checked.
  destruct (within_loop_checked_cases location df radius (seq 0 (shape0 df)) [])
    as [(found & Hf & Hall & Hin)|(k & e & Hk & Hr & Hwhy)].
  - rewrite Hf. cbn [bind].
    destruct (proportion_of_total df found dollar_tier) as (v & Hv & Hunit).
    { intros j Hj. destruct (Hin j Hj) as [[]|Hs]. apply in_seq in Hs. lia. }
    rewrite Hv. split; [|split].
    + split; [|now exists v]. intros _ i Hi. apply Hall. apply in_seq. lia.
    + intros v' E. injection E as <-. exact Hunit.
    + discriminate.
  - rewrite Hr. cbn [bind]. apply in_seq in Hk. split; [|split].
    + split.
      * intros (v & Hv). discriminate.
      * intros Hall. destruct (Hall k ltac:(lia)) as (lr & apart & Hlr & Hm).
        destruct Hwhy as [[Hno _]|(lr' & Hlr' & Hm')].
        -- now apply Hno in Hlr.
        -- rewrite Hlr in Hlr'. injection Hlr' as <-. congruence.
    + discriminate.
    + intros e' He. injection He as <-. exists k. split; [lia|exact Hwhy].
Qed.

(** With a distance that never raises the call is the one of the claims. *)
Lemma radius_dollar_proportion_checked_never_raising
    (location : coordinate) (df : frame yelp_row) (radius : Q) (dollar_tier : Z) :
  radius_dollar_proportion_checked (fun a b => Ok (distance a b)) location df radius
    dollar_tier
  = radius_dollar_proportion distance location df radius dollar_tier.
Proof. now apply radius_dollar_proportion_checked_agrees. Qed.

End AnyFrame.

(** A location with a latitude that geopy refuses: the call raises
    [ValueError] at the first row; on a frame without rows it returns [0]. *)
Example invalid_location_raises :
  radius_dollar_proportion_checked Sample.taxicab_checked (100%Q, 100%Q)
    (range_frame Sample.businesses) 1 2 = Raise ValueError
  /\ radius_dollar_proportion_checked Sample.taxicab_checked (100%Q, 100%Q)
       (range_frame []) 1 2 = Ok 0%Q.
Proof. split; reflexivity. Qed.

(* ------------------------------------------------------------------ *)
(** ** The demographics join, row by row *)

Section JoinFacts.

Variable seattle_rent : frame seattle_row.

(** The table has one row, and one only, for the neighbourhood of [g]. *)
Local Abbreviation one_row g :=
  (exists lr, mask (fun r => String.eqb (neighborhood r) (gps_neighborhood g)) seattle_rent
              = [lr]).

Lemma one_row_dec (g : gps_row) : one_row g \/ ~ one_row g.
Proof.
  destruct (mask (fun r => String.eqb (neighborhood r) (gps_neighborhood g)) seattle_rent)
    as [|lr [|lr2 rest]].
  - right. intros (lr & H). discriminate.
  - left. now exists lr.
  - right. intros (lr' & H). discriminate.
Qed.

Lemma join_row_joins (i : nat) (rows : list gps_row) (g : gps_row) :
  nth_error rows i = Some g -> one_row g ->
  join_row seattle_rent i (range_frame rows)
  = Done (range_frame (upd_at i (joined_row seattle_rent) rows)).
Proof.
  intros Hg (lr & Hlr). rewrite (join_row_range_frame _ _ _ _ Hg), Hlr.
  do 2 f_equal. apply (upd_at_ext i _ _ rows g Hg).
  unfold joined_row. now rewrite Hlr.
Qed.

Lemma join_row_raises (i : nat) (rows : list gps_row) (g : gps_row) :
  nth_error rows i = Some g -> ~ one_row g ->
  join_row seattle_rent i (range_frame rows) = Raised ValueError (range_frame rows).
Proof.
  intros Hg Hno. rewrite (join_row_range_frame _ _ _ _ Hg).
  destruct (mask _ seattle_rent) as [|lr [|lr2 rest]]; try reflexivity.
  contradiction Hno. now exists lr.
Qed.

Lemma join_loop_completes (todo : list gps_row) :
  forall done,
    (forall g, In g todo -> one_row g) ->
    for_each (seq (List.length done) (List.length todo)) (join_row seattle_rent)
      (range_frame (done ++ todo))
    = Done (range_frame (done ++ map (joined_row seattle_rent) todo)).
Proof.
  induction todo as [|g todo IH]; intros done Hall; [reflexivity|].
  cbn [List.length seq for_each map].
  assert (Hg : nth_error (done ++ g :: todo) (List.length done) = Some g)
    by (rewrite nth_error_app2, Nat.sub_diag by lia; reflexivity).
  rewrite (join_row_joins _ _ _ Hg (Hall g (or_introl eq_refl))), upd_at_middle.
  specialize (IH (done ++ [joined_row seattle_rent g])
                (fun g' H => Hall g' (or_intror H))).
  rewrite <- !app_assoc, length_app, Nat.add_comm in IH. exact IH.
Qed.

Lemma join_loop_stops (pre : list gps_row) :
  forall done g post,
    (forall g', In g' pre -> one_row g') -> ~ one_row g ->
    for_each (seq (List.length done) (List.length (pre ++ g :: post)))
      (join_row seattle_rent) (range_frame (done ++ pre ++ g :: post))
    = Raised ValueError
        (range_frame (done ++ map (joined_row seattle_rent) pre ++ g :: post)).
Proof.
  induction pre as [|g0 pre IH]; intros done g post Hall Hno.
  - cbn [app List.length seq for_each map].
    assert (Hg : nth_error (done ++ g :: post) (List.length done) = Some g)
      by (rewrite nth_error_app2, Nat.sub_diag by lia; reflexivity).
    now rewrite (join_row_raises _ _ _ Hg Hno).
  - cbn [app List.length seq for_each map].
    assert (Hg : nth_error (done ++ g0 :: pre ++ g :: post) (List.length done) = Some g0)
      by (rewrite nth_error_app2, Nat.sub_diag by lia; reflexivity).
    rewrite (join_row_joins _ _ _ Hg (Hall g0 (or_introl eq_refl))), upd_at_middle.
    specialize (IH (done ++ [joined_row seattle_rent g0]) g post
                  (fun g' H => Hall g' (or_intror H)) Hno).
    rewrite <- !app_assoc, length_app, Nat.add_comm in IH. exact IH.
Qed.

(** The rows up to the first one without its row in the table. *)
Lemma first_without_row (rows : list gps_row) :
  (forall g, In g rows -> one_row g)
  \/ exists pre g post,
       rows = pre ++ g :: post /\ (forall g', In g' pre -> one_row g') /\ ~ one_row g.
Proof.
  induction rows as [|g rows IH]; [left; intros ? []|].
  destruct (one_row_dec g) as [Hg|Hg].
  - destruct IH as [Hall|(pre & g' & post & -> & Hpre & Hno)].
    + left. intros g' [<-|Hin]; [exact Hg|now apply Hall].
    + right. exists (g :: pre), g', post. split; [reflexivity|]. split; [|exact Hno].
      intros g2 [<-|Hin]; [exact Hg|now apply Hpre].
  - right. exists [], g, rows. split; [reflexivity|]. split; [intros ? []|exact Hg].
Qed.

(** X2. The join completes exactly when the table has one row, and one
    only, for the neighbourhood of every point. The rows written are then
    the points in order, each with the income, rent and home value of the
    row of its neighbourhood and with its coordinates, neighbourhood and
    metrics as they were. *)
Theorem join_completes_iff_one_row_each (rows : list gps_row) :
  ((exists st, join_demographics seattle_rent (range_frame rows) = Done st)
   <-> (forall g, In g rows -> one_row g))
  /\ ((forall g, In g rows -> one_row g) ->
      join_and_export seattle_rent (range_frame rows)
      = (Done (range_frame (map (joined_row seattle_rent) rows)),
         Some (map (joined_row seattle_rent) rows)))
  /\ (forall g lr,
        mask (fun r => String.eqb (neighborhood r) (gps_neighborhood g)) seattle_rent = [lr] ->
        gps_median_income (joined_row seattle_rent g) = median_income (snd lr)
        /\ gps_median_rent (joined_row seattle_rent g) = median_rent (snd lr)
        /\ gps_median_home_value (joined_row seattle_rent g) = median_home_value (snd lr)
        /\ gps_latitude (joined_row seattle_rent g) = gps_latitude g
        /\ gps_longitude (joined_row seattle_rent g) = gps_longitude g
        /\ gps_neighborhood (joined_row seattle_rent g) = gps_neighborhood g
        /\ metric (joined_row seattle_rent g) = metric g).
Proof.
  assert (Hdone : (forall g, In g rows -> one_row g) ->
            join_demographics seattle_rent (range_frame rows)
            = Done (range_frame (map (joined_row seattle_rent) rows))).
  { intros Hall. unfold join_demographics. rewrite shape0_range_frame.
    apply (join_loop_completes rows [] Hall). }
  split; [split|split].
  - intros (st & Hst).
    destruct (first_without_row rows) as [Hall|(pre & g & post & -> & Hpre & Hno)];
      [exact Hall|].
    unfold join_demographics in Hst. rewrite shape0_range_frame in Hst.
    pose proof (join_loop_stops pre [] g post Hpre Hno) as Hstop.
    cbn [app List.length] in Hstop. rewrite Hstop in Hst. discriminate.
  - intros Hall. eexists. now apply Hdone.
  - intros Hall. unfold join_and_export. rewrite (Hdone Hall).
    unfold to_csv. now rewrite values_range_frame.
  - intros g lr Hlr. unfold joined_row. rewrite Hlr. repeat split.
Qed.

(** X3. When a point has no single row in the table and every point before
    it has one, the join raises [ValueError] at that point: in memory the
    points before it are joined, that point and the ones after it are as
    they were, and nothing is written. *)
Theorem join_stops_at_first_point_without_row (pre post : list gps_row) (g : gps_row) :
  (forall g', In g' pre -> one_row g') ->
  (forall lr, mask (fun r => String.eqb (neighborhood r) (gps_neighborhood g)) seattle_rent
              <> [lr]) ->
  join_and_export seattle_rent (range_frame (pre ++ g :: post))
  = (Raised ValueError (range_frame (map (joined_row seattle_rent) pre ++ g :: post)),
     None).
Proof.
  intros Hpre Hno. unfold join_and_export, join_demographics. rewrite shape0_range_frame.
  assert (Hg : ~ one_row g) by (intros (lr & Hlr); now apply (Hno lr)).
  pose proof (join_loop_stops pre [] g post Hpre Hg) as Hstop.
  cbn [app List.length] in Hstop. now rewrite Hstop.
Qed.

End JoinFacts.

Lemma join_stops_at_first_point_without_row_witness :
  join_and_export (range_frame Sample.demographics) (range_frame Sample.points)
  = (Raised ValueError
       (range_frame
          (map (joined_row (range_frame Sample.demographics)) (firstn 2 Sample.points)
           ++ skipn 2 Sample.points)),
     None).
Proof.
  apply (join_stops_at_first_point_without_row (range_frame Sample.demographics)
           (firstn 2 Sample.points) [] (nth 2 Sample.points (mk_gps 0 0 "" (fun _ _ => 0%Q) 0 0 0))).
  - intros g' [<-|[<-|[]]]; eexists; reflexivity.
  - intros lr. vm_compute. discriminate.
Defined.

(* ------------------------------------------------------------------ *)
(** ** Loops that write through the labels of a mask *)

Section MaskLoops.

Context {R : Type}.

Lemma existsb_index_mask_eq (p : R -> bool) (df : frame R) (lr : Z * R) :
  NoDup (index df) -> In lr df ->
  existsb (Z.eqb (fst lr)) (index (mask p df)) = p (snd lr).
Proof.
  intros Hnd Hin. destruct (p (snd lr)) eqn:Ep; [now apply existsb_index_mask|].
  destruct (existsb _ _) eqn:Ex; [|reflexivity].
  apply existsb_exists in Ex as (l & Hl & El). apply Z.eqb_eq in El. subst l.
  unfold index, mask in Hl. apply in_map_iff in Hl as ([l2 r2] & El2 & Hin2).
  cbn in El2. apply filter_In in Hin2 as [Hin2 Hp2]. cbn in Hp2.
  destruct lr as [l r]. cbn in *. subst l2.
  rewrite (NoDup_index_unique df l r r2 Hnd Hin Hin2) in Ep. congruence.
Qed.

(** With distinct labels, writing through the labels of a mask updates the
    rows of the mask. *)
Lemma set_loc_index_mask (p q : R -> bool) (upd : R -> R) (df0 df : frame R) :
  NoDup (index df0) ->
  (forall lr, In lr df0 -> q (snd lr) = p (snd lr)) ->
  map (fun lr => if existsb (Z.eqb (fst lr)) (index (mask q df0)) then (fst lr, upd (snd lr))
                 else lr) df0
  = map (fun lr => (fst lr, if p (snd lr) then upd (snd lr) else snd lr)) df0.
Proof.
  intros Hnd Hq. apply map_ext_in. intros lr Hin.
  rewrite (existsb_index_mask_eq q df0 lr Hnd Hin), (Hq lr Hin).
  destruct lr as [l r]. cbn. now destruct (p r).
Qed.

Lemma index_map_rows (F : R -> R) (df : frame R) :
  index (map (fun lr => (fst lr, F (snd lr))) df) = index df.
Proof. unfold index. rewrite map_map. reflexivity. Qed.

(** A loop whose every iteration rewrites each row by itself. *)
Lemma for_each_map_rows {A : Type} (xs : list A) (body : A -> frame R -> outcome (frame R))
    (f : A -> R -> R) :
  (forall x s, NoDup (index s) ->
     body x s = Done (map (fun lr => (fst lr, f x (snd lr))) s)) ->
  forall s, NoDup (index s) ->
    for_each xs body s
    = Done (map (fun lr => (fst lr, fold_left (fun r x => f x r) xs (snd lr))) s).
Proof.
  intros Hbody. induction xs as [|x xs IH]; intros s Hnd.
  - cbn. f_equal. rewrite <- (map_id s) at 1. apply map_ext. now intros [l r].
  - cbn [for_each fold_left]. rewrite (Hbody x s Hnd).
    rewrite IH by (now rewrite index_map_rows). now rewrite map_map.
Qed.

End MaskLoops.

(* ------------------------------------------------------------------ *)
(** ** The tier columns after the loop over the neighbourhoods *)

Lemma unique_In (x : string) (xs : list string) : In x (unique xs) <-> In x xs.
Proof.
  induction xs as [|a xs IH]; [reflexivity|].
  cbn [unique In]. rewrite filter_In, IH, negb_true_iff, String.eqb_neq.
  destruct (String.eqb_spec a x); [tauto|]. split; [tauto|].
  intros [H|H]; [tauto|]. right. split; [exact H|congruence].
Qed.

Section RateFacts.

Variable yelp : frame yelp_row.

Lemma hood_value_ok (hood : string) (t : tier) :
  hood_proportion yelp hood (tier_value t) = Ok (hood_value yelp hood t).
Proof.
  unfold hood_value.
  destruct (hood_proportion_total yelp hood (tier_value t)) as (p & -> & _). reflexivity.
Qed.

Lemma rate_call_rows (hood : string) (t : tier) (s : frame seattle_row) :
  NoDup (index s) ->
  rate_call yelp hood t s = Done (map (fun lr => (fst lr, rate_row yelp hood t (snd lr))) s).
Proof.
  intros Hnd. unfold rate_call, dollar_rating. rewrite hood_value_ok.
  cbn [bind attempt fst]. f_equal. unfold set_loc.
  rewrite (set_loc_index_mask (fun r => String.eqb (neighborhood r) hood)
             (fun r => String.eqb (neighborhood r) hood) _ s s Hnd (fun _ _ => eq_refl)).
  reflexivity.
Qed.

Lemma rate_tiers_row (hood : string) (r : seattle_row) :
  let r' := fold_left (fun r t => rate_row yelp hood t r) tiers r in
  neighborhood r' = neighborhood r
  /\ median_rent r' = median_rent r
  /\ median_home_value r' = median_home_value r
  /\ median_income r' = median_income r
  /\ forall t, dollar r' t
               = if String.eqb (neighborhood r) hood then hood_value yelp hood t
                 else dollar r t.
Proof.
  cbn [fold_left tiers]. unfold rate_row.
  destruct (String.eqb (neighborhood r) hood) eqn:E;
    cbn [neighborhood set_dollar]; rewrite ?E; cbn [neighborhood set_dollar]; rewrite ?E;
    cbn [neighborhood set_dollar]; rewrite ?E.
  - repeat split. intros t. destruct t; reflexivity.
  - repeat split.
Qed.

Lemma rate_hoods_row (hoods : list string) :
  forall r,
    let r' := fold_left
                (fun r hood => fold_left (fun r t => rate_row yelp hood t r) tiers r)
                hoods r in
    neighborhood r' = neighborhood r
    /\ median_rent r' = median_rent r
    /\ median_home_value r' = median_home_value r
    /\ median_income r' = median_income r
    /\ forall t, dollar r' t
                 = if existsb (String.eqb (neighborhood r)) hoods
                   then hood_value yelp (neighborhood r) t
                   else dollar r t.
Proof.
  induction hoods as [|hood hoods IH]; intros r; [cbn; repeat split|].
  cbn [fold_left existsb].
  destruct (rate_tiers_row hood r) as (Hn & Hr & Hh & Hi & Hd).
  destruct (IH (fold_left (fun r t => rate_row yelp hood t r) tiers r))
    as (Hn' & Hr' & Hh' & Hi' & Hd').
  cbv zeta in *. rewrite Hn', Hr', Hh', Hi', Hn, Hr, Hh, Hi.
  repeat split. intros t. rewrite Hd', Hn, Hd.
  destruct (String.eqb_spec (neighborhood r) hood) as [<-|_]; cbn [orb];
    destruct (existsb (String.eqb (neighborhood r)) hoods); reflexivity.
Qed.

(** X4. On a table with distinct index labels the loop over the
    neighbourhoods and the tiers completes; it leaves in each of the four
    tier columns of every row the proportion of the businesses of the
    row's own neighbourhood in that tier, whatever the columns held before
    ([0] in all four for a neighbourhood without a business), and changes
    nothing else. *)
Theorem rate_neighborhoods_fills_every_row (seattle_rent : frame seattle_row) :
  NoDup (index seattle_rent) ->
  exists after,
    rate_neighborhoods seattle_rent yelp = Done after
    /\ index after = index seattle_rent
    /\ forall i l row, nth_error seattle_rent i = Some (l, row) ->
         exists row',
           nth_error after i = Some (l, row')
           /\ neighborhood row' = neighborhood row
           /\ median_rent row' = median_rent row
           /\ median_home_value row' = median_home_value row
           /\ median_income row' = median_income row
           /\ (forall t, hood_proportion yelp (neighborhood row) (tier_value t)
                         = Ok (dollar row' t))
           /\ (mask (fun r => String.eqb (cra r) (neighborhood row)) yelp = [] ->
               forall t, dollar row' t = 0%Q).
Proof.
  intros Hnd. unfold rate_neighborhoods.
  set (hoods := unique (map neighborhood (values seattle_rent))).
  eexists. split.
  - apply (for_each_map_rows hoods _
             (fun hood r => fold_left (fun r t => rate_row yelp hood t r) tiers r));
      [|exact Hnd].
    intros hood s Hs.
    apply (for_each_map_rows tiers _ (fun t r => rate_row yelp hood t r)); [|exact Hs].
    intros t s' Hs'. now apply rate_call_rows.
  - split; [apply index_map_rows|].
    intros i l row Hrow. rewrite nth_error_map, Hrow. cbn [option_map fst snd].
    eexists. split; [reflexivity|].
    destruct (rate_hoods_row hoods row) as (Hn & Hr & Hh & Hi & Hd). cbv zeta in *.
    do 4 (split; [assumption|]).
    assert (Hin : existsb (String.eqb (neighborhood row)) hoods = true).
    { apply existsb_exists. exists (neighborhood row). split; [|apply String.eqb_refl].
      apply unique_In. unfold values. rewrite map_map.
      apply nth_error_In in Hrow.
      change (neighborhood row) with ((fun x : Z * seattle_row => neighborhood (snd x)) (l, row)).
      now apply in_map. }
    assert (Hval : forall t, dollar
                     (fold_left (fun r hood => fold_left (fun r t => rate_row yelp hood t r)
                                                 tiers r) hoods row) t
                   = hood_value yelp (neighborhood row) t)
      by (intros t; now rewrite Hd, Hin).
    split.
    + intros t. rewrite Hval. apply hood_value_ok.
    + intros Hnone t. rewrite Hval. unfold hood_value.
      now rewrite (hood_proportion_empty _ _ _ Hnone).
Qed.

End RateFacts.

Lemma rate_neighborhoods_fills_every_row_witness :
  exists after,
    rate_neighborhoods (range_frame Sample.demographics) (range_frame Sample.businesses)
    = Done after
    /\ index after = [0; 1; 2].
Proof.
  destruct (rate_neighborhoods_fills_every_row (range_frame Sample.businesses)
              (range_frame Sample.demographics)) as (after & Hrun & Hidx & _).
  - vm_compute. repeat constructor; cbn; intuition discriminate.
  - exists after. split; assumption.
Defined.

(* ------------------------------------------------------------------ *)
(** ** From the sampled points to the export *)

Section GenerationFacts.

Variable distance : coordinate -> coordinate -> Q.




End GenerationFacts.

(** Four sampled points, one of them outside every neighbourhood: three
    rows are written, with the figures of Ballard and Interbay. *)
Example generate_dataset_sample :
  option_map (map (fun g => (gps_latitude g, gps_neighborhood g, gps_median_income g)))
    (generate_dataset Sample.taxicab Sample.sampled (range_frame Sample.businesses)
       (range_frame Sample.demographics))
  = Some [ (0%Q, "Ballard"%string, 79162); (1%Q, "Interbay"%string, 74679);
           (0%Q, "Ballard"%string, 79162) ].
Proof. vm_compute. reflexivity. Qed.

(* ------------------------------------------------------------------ *)
(** ** Cutting the text of the coordinates *)

Section TextFacts.

Local Open Scope string_scope.

Lemma py_split_nonempty (sep : ascii) (s : string) :
  exists piece pieces, py_split sep s = piece :: pieces.
Proof.
  induction s as [|a s IH]; cbn; [now eexists; eexists|].
  destruct (Ascii.eqb a sep); [now eexists; eexists|].
  destruct IH as (p & ps & ->). now eexists; eexists.
Qed.

Lemma py_split_none (sep : ascii) (s : string) :
  contains sep s = false -> py_split sep s = [s].
Proof.
  induction s as [|a s IH]; cbn; [reflexivity|].
  intros H. apply orb_false_iff in H as [Ha Hs]. now rewrite Ha, (IH Hs).
Qed.

(** The pieces of two texts joined by the separator are the pieces of the
    one followed by the pieces of the other. *)
Lemma py_split_join (sep : ascii) (s1 s2 : string) :
  py_split sep (s1 ++ String sep s2) = (py_split sep s1 ++ py_split sep s2)%list.
Proof.
  induction s1 as [|a s1 IH]; cbn.
  - now rewrite Ascii.eqb_refl.
  - destruct (Ascii.eqb a sep); [now rewrite IH|].
    rewrite IH. destruct (py_split_nonempty sep s1) as (p & ps & ->). reflexivity.
Qed.

Lemma py_split_two (sep : ascii) (s : string) :
  contains sep s = true ->
  exists first second pieces, py_split sep s = first :: second :: pieces.
Proof.
  induction s as [|a s IH]; cbn; [discriminate|].
  destruct (Ascii.eqb a sep); cbn [orb].
  - intros _. destruct (py_split_nonempty sep s) as (p & ps & ->). now do 3 eexists.
  - intros H. destruct (IH H) as (p1 & p2 & ps & ->). now do 3 eexists.
Qed.

Lemma py_remove_none (c : ascii) (s : string) :
  contains c s = false -> py_remove c s = s.
Proof.
  induction s as [|a s IH]; cbn; [reflexivity|].
  intros H. apply orb_false_iff in H as [Ha Hs]. now rewrite Ha, (IH Hs).
Qed.

Lemma py_remove_append (c : ascii) (s1 s2 : string) :
  py_remove c (s1 ++ s2) = py_remove c s1 ++ py_remove c s2.
Proof.
  induction s1 as [|a s1 IH]; cbn; [reflexivity|].
  destruct (Ascii.eqb a c); now rewrite IH.
Qed.

Lemma append_empty_r (s : string) : s ++ "" = s.
Proof. induction s as [|a s IH]; cbn; [reflexivity|now rewrite IH]. Qed.

Lemma parse_coordinate_ok (s : string) :
  contains "," s = true -> parse_coordinate s = Ok (pieces_of s).
Proof.
  intros H. unfold pieces_of, parse_coordinate.
  destruct (py_split_two "," s H) as (p1 & p2 & ps & ->). reflexivity.
Qed.

(** X7. The text of a pair is cut back into its two parts: from
    ["[" ++ a ++ ", " ++ b ++ "]"] the loop keeps [a] as the latitude and
    [b] as the longitude, when [a] has no comma and no opening bracket and
    [b] has no comma, no space and no closing bracket. *)
Theorem parse_coordinate_round_trip (a b : string) :
  contains "," a = false -> contains "[" a = false ->
  contains "," b = false -> contains " " b = false -> contains "]" b = false ->
  parse_coordinate ("[" ++ a ++ ", " ++ b ++ "]") = Ok (a, b).
Proof.
  intros Hac Hab Hbc Hbs Hbb. unfold parse_coordinate.
  change ("[" ++ a ++ ", " ++ b ++ "]")
    with (("[" ++ a) ++ String "," (" " ++ b ++ "]")).
  rewrite py_split_join.
  rewrite (py_split_none "," ("[" ++ a)) by (cbn; exact Hac).
  rewrite (py_split_none "," (" " ++ b ++ "]")).
  2:{ cbn. clear - Hbc. induction b as [|c b IH]; cbn in *; [reflexivity|].
      apply orb_false_iff in Hbc as [-> Hb]. now apply IH. }
  cbn [app py_getitem nth_error bind].
  do 2 f_equal.
  - cbn. now apply py_remove_none.
  - cbn. rewrite !py_remove_append. cbn.
    rewrite (py_remove_none " " b Hbs), (py_remove_none "]" b Hbb).
    apply append_empty_r.
Qed.

Lemma parse_coordinate_round_trip_witness :
  parse_coordinate "[47.6, -122.3]" = Ok ("47.6", "-122.3").
Proof.
  apply (parse_coordinate_round_trip "47.6" "-122.3"); reflexivity.
Defined.

(** X8. The loop body keeps two pieces exactly when the text has a comma,
    and raises [IndexError] exactly when it has none; whatever follows a
    second comma is ignored. *)
Theorem parse_coordinate_needs_a_comma (s : string) :
  (contains "," s = true -> exists p, parse_coordinate s = Ok p)
  /\ (contains "," s = false -> parse_coordinate s = Raise IndexError)
  /\ (forall rest, contains "," s = true ->
        parse_coordinate (s ++ String "," rest) = parse_coordinate s).
Proof.
  split; [|split].
  - intros H. eexists. now apply parse_coordinate_ok.
  - intros H. unfold parse_coordinate. now rewrite (py_split_none "," s H).
  - intros rest H. unfold parse_coordinate. rewrite py_split_join.
    destruct (py_split_two "," s H) as (p1 & p2 & ps & ->). reflexivity.
Qed.

End TextFacts.

(* ------------------------------------------------------------------ *)
(** ** [separate_coordinates] *)

Section MaskLoopsIn.

Context {R : Type}.

Lemma set_loc_after_map (p : R -> bool) (F upd : R -> R) (df : frame R) :
  NoDup (index df) ->
  set_loc (map (fun lr => (fst lr, F (snd lr))) df) (index (mask p df)) upd
  = map (fun lr => (fst lr, if p (snd lr) then upd (F (snd lr)) else F (snd lr))) df.
Proof.
  intros Hnd. unfold set_loc. rewrite map_map. apply map_ext_in. intros lr Hin.
  cbn [fst snd]. rewrite (existsb_index_mask_eq p df lr Hnd Hin).
  now destruct (p (snd lr)).
Qed.

Lemma for_each_map_rows_in {A : Type} (xs : list A)
    (body : A -> frame R -> outcome (frame R)) (f : A -> R -> R) :
  (forall x, In x xs -> forall s, NoDup (index s) ->
     body x s = Done (map (fun lr => (fst lr, f x (snd lr))) s)) ->
  forall s, NoDup (index s) ->
    for_each xs body s
    = Done (map (fun lr => (fst lr, fold_left (fun r x => f x r) xs (snd lr))) s).
Proof.
  induction xs as [|x xs IH]; intros Hbody s Hnd.
  - cbn. f_equal. rewrite <- (map_id s) at 1. apply map_ext. now intros [l r].
  - cbn [for_each fold_left]. rewrite (Hbody x (or_introl eq_refl) s Hnd).
    rewrite IH; [now rewrite map_map| |now rewrite index_map_rows].
    intros x' Hx'. apply Hbody. now right.
Qed.

End MaskLoopsIn.

Section SeparateFacts.

Local Open Scope string_scope.

Lemma separate_step_rows (coordinate : string) (yelp : frame raw_yelp_row) :
  NoDup (index yelp) -> contains "," coordinate = true ->
  separate_step coordinate yelp
  = Done (map (fun lr => (fst lr, separate_row coordinate (snd lr))) yelp).
Proof.
  intros Hnd Hc. unfold separate_step. rewrite (parse_coordinate_ok _ Hc).
  cbn [bind attempt]. f_equal.
  set (p := fun r => String.eqb (coordinates r) coordinate).
  assert (E1 : set_loc yelp (index (mask p yelp))
                 (set_raw_latitude (PyStr (fst (pieces_of coordinate))))
               = map (fun lr => (fst lr,
                                 if p (snd lr)
                                 then set_raw_latitude (PyStr (fst (pieces_of coordinate)))
                                        (snd lr)
                                 else snd lr)) yelp).
  { unfold set_loc.
    apply (set_loc_index_mask p p _ yelp yelp Hnd (fun _ _ => eq_refl)). }
  rewrite E1.
  rewrite (set_loc_after_map p
             (fun r => if p r then set_raw_latitude (PyStr (fst (pieces_of coordinate))) r
                       else r)
             (set_raw_longitude (PyStr (snd (pieces_of coordinate)))) yelp Hnd).
  apply map_ext. intros [l r]. cbn [fst snd]. unfold separate_row, p.
  now destruct (String.eqb (coordinates r) coordinate).
Qed.

Lemma separate_rows_row (texts : list string) :
  forall r,
    let r' := fold_left (fun r c => separate_row c r) texts r in
    raw_cra r' = raw_cra r /\ raw_price r' = raw_price r
    /\ coordinates r' = coordinates r
    /\ (In (coordinates r) texts ->
        raw_latitude r' = PyStr (fst (pieces_of (coordinates r)))
        /\ raw_longitude r' = PyStr (snd (pieces_of (coordinates r))))
    /\ (~ In (coordinates r) texts -> r' = r).
Proof.
  induction texts as [|c texts IH]; intros r.
  - cbn. do 3 (split; [reflexivity|]). split; [intros []|reflexivity].
  - cbn [fold_left]. destruct (IH (separate_row c r)) as (Hc & Hp & Hco & Hin & Hout).
    cbv zeta in *. unfold separate_row in *.
    destruct (String.eqb_spec (coordinates r) c) as [E|E]; cbn in *.
    + subst c. rewrite Hc, Hp, Hco. do 3 (split; [reflexivity|]). split.
      * intros _. destruct (in_dec string_dec (coordinates r) texts) as [Hi|Hi].
        -- now apply Hin.
        -- rewrite (Hout Hi). now split.
      * intros Hno. contradiction Hno. now left.
    + rewrite Hc, Hp, Hco. do 3 (split; [reflexivity|]). split.
      * intros [Hi|Hi]; [congruence|now apply Hin].
      * intros Hno. apply Hout. intros Hi. apply Hno. now right.
Qed.

(** X9. On a global [yelp] with distinct index labels and an argument
    whose texts all have a comma, [separate_coordinates] completes: every
    row of [yelp] whose text is among those of the argument receives the
    two pieces of its own text, whatever the two cells held; every other
    row, and every other column, is unchanged. *)
Theorem separate_coordinates_fills_rows (yelp yelp_df : frame raw_yelp_row) :
  NoDup (index yelp) ->
  (forall c, In c (map coordinates (values yelp_df)) -> contains "," c = true) ->
  exists after,
    separate_coordinates yelp yelp_df = Done after
    /\ index after = index yelp
    /\ forall i l r, nth_error yelp i = Some (l, r) ->
         exists r',
           nth_error after i = Some (l, r')
           /\ raw_cra r' = raw_cra r /\ raw_price r' = raw_price r
           /\ coordinates r' = coordinates r
           /\ (In (coordinates r) (map coordinates (values yelp_df)) ->
               raw_latitude r' = PyStr (fst (pieces_of (coordinates r)))
               /\ raw_longitude r' = PyStr (snd (pieces_of (coordinates r))))
           /\ (~ In (coordinates r) (map coordinates (values yelp_df)) -> r' = r).
Proof.
  intros Hnd Htexts. unfold separate_coordinates. eexists. split.
  - apply (for_each_map_rows_in _ _ separate_row); [|exact Hnd].
    intros c Hc s Hs. apply separate_step_rows; [exact Hs|now apply Htexts].
  - split; [apply index_map_rows|].
    intros i l r Hr. rewrite nth_error_map, Hr. cbn [option_map fst snd].
    eexists. split; [reflexivity|].
    apply (separate_rows_row (map coordinates (values yelp_df)) r).
Qed.

(** X10. When a text of the argument has no comma, [separate_coordinates]
    raises [IndexError]. *)
Theorem separate_coordinates_raises_without_comma (yelp yelp_df : frame raw_yelp_row) :
  (exists c, In c (map coordinates (values yelp_df)) /\ contains "," c = false) ->
  exists st, separate_coordinates yelp yelp_df = Raised IndexError st.
Proof.
  unfold separate_coordinates. generalize (map coordinates (values yelp_df)).
  intros texts. revert yelp. induction texts as [|c texts IH]; intros yelp (c0 & Hin & Hc0).
  - destruct Hin.
  - cbn [for_each]. unfold separate_step at 1.
    destruct (contains "," c) eqn:Hc.
    + rewrite (parse_coordinate_ok c Hc). cbn [bind attempt].
      apply IH. exists c0. split; [|exact Hc0].
      destruct Hin as [<-|Hin]; [congruence|exact Hin].
    + unfold parse_coordinate. rewrite (py_split_none "," c Hc). cbn.
      now eexists.
Qed.

End SeparateFacts.

Lemma separate_coordinates_fills_rows_witness :
  exists after,
    separate_coordinates (range_frame Sample.raw_businesses)
      (range_frame Sample.raw_businesses) = Done after
    /\ index after = [0; 1; 2].
Proof.
  destruct (separate_coordinates_fills_rows (range_frame Sample.raw_businesses)
              (range_frame Sample.raw_businesses)) as (after & Hrun & Hidx & _).
  - vm_compute. repeat constructor; cbn; intuition discriminate.
  - intros c Hc. vm_compute in Hc. destruct Hc as [<-|[<-|[<-|[]]]]; reflexivity.
  - exists after. split; assumption.
Defined.

Lemma separate_coordinates_raises_without_comma_witness :
  exists st,
    separate_coordinates (range_frame Sample.raw_businesses)
      (range_frame [mk_raw_yelp "Ballard" 2 "47.6 -122.3" (PyInt 0) (PyInt 0)])
    = Raised IndexError st.
Proof.
  apply (separate_coordinates_raises_without_comma (range_frame Sample.raw_businesses)).
  exists "47.6 -122.3"%string. split; [now left|reflexivity].
Defined.

(* ------------------------------------------------------------------ *)
(** ** From the texts to the numeric coordinates *)

Lemma NoDup_index_range_frame {R : Type} (rows : list R) : NoDup (index (range_frame rows)).
Proof.
  rewrite range_frame_labelled, index_labelled. generalize 0%nat.
  induction (List.length rows) as [|n IH]; intros k; [constructor|].
  cbn [seq map]. constructor; [|apply IH].
  intros Hin. apply in_map_iff in Hin as (j & Ej & Hj). apply in_seq in Hj. lia.
Qed.

Lemma map_rows_labelled {R : Type} (F : R -> R) (k : nat) (rows : list R) :
  map (fun lr => (fst lr, F (snd lr))) (labelled k rows) = labelled k (map F rows).
Proof.
  revert k. induction rows as [|r rows IH]; intros k; [reflexivity|].
  cbn [map]. rewrite !labelled_cons. cbn [map fst snd]. now rewrite IH.
Qed.

Section CastFacts.

Variable py_float : string -> result Q.

(** The value of a cell that casts. *)
Local Abbreviation cast_value c :=
  (match cell_float py_float c with Ok v => v | Raise _ => 0%Q end).

Lemma astype_float_all (cells : list pycell) :
  (forall c, In c cells -> exists x, cell_float py_float c = Ok x) ->
  astype_float py_float cells = Ok (map (fun c => cast_value c) cells).
Proof.
  induction cells as [|c cells IH]; intros Hall; [reflexivity|].
  cbn [astype_float map]. destruct (Hall c (or_introl eq_refl)) as (x & ->).
  cbn [bind]. now rewrite IH by (intros c' H; apply Hall; now right).
Qed.

Lemma cast_rows_labelled (k : nat) (rows : list raw_yelp_row) :
  map (fun p => (fst (fst p),
                 mk_yelp (raw_cra (snd (fst p))) (raw_price (snd (fst p)))
                   (fst (snd p)) (snd (snd p))))
    (combine (labelled k rows)
       (combine (map (fun c => cast_value c) (map raw_latitude rows))
          (map (fun c => cast_value c) (map raw_longitude rows))))
  = labelled k
      (map (fun r => mk_yelp (raw_cra r) (raw_price r) (cast_value (raw_latitude r))
                       (cast_value (raw_longitude r))) rows).
Proof.
  revert k. induction rows as [|r rows IH]; intros k; [reflexivity|].
  cbn [map]. rewrite !labelled_cons. cbn [combine map fst snd]. now rewrite IH.
Qed.

(** X11. The three cells that build the coordinates, on a frame with the
    default index whose texts all have a comma and whose pieces all cast:
    they complete, keep the rows in order with their neighbourhood and
    price, and leave as latitude and longitude of each row the casts of
    the two pieces of the row's own text. *)
Theorem build_coordinates_casts_own_text (rows : list raw_yelp_row) :
  (forall r, In r rows ->
     contains "," (coordinates r) = true
     /\ exists x y,
          py_float (fst (pieces_of (coordinates r))) = Ok x
          /\ py_float (snd (pieces_of (coordinates r))) = Ok y) ->
  exists out,
    build_coordinates py_float (range_frame rows) = Ok (range_frame out)
    /\ List.length out = List.length rows
    /\ forall i r, nth_error rows i = Some r ->
         exists r',
           nth_error out i = Some r'
           /\ cra r' = raw_cra r /\ price r' = raw_price r
           /\ py_float (fst (pieces_of (coordinates r))) = Ok (latitude r')
           /\ py_float (snd (pieces_of (coordinates r))) = Ok (longitude r').
Proof.
  intros Hrows. unfold build_coordinates.
  set (zero := fun r => set_raw_longitude (PyInt 0) (set_raw_latitude (PyInt 0) r)).
  assert (H0 : add_coordinate_columns (range_frame rows) = range_frame (map zero rows))
    by (apply (map_rows_labelled zero 0 rows)).
  rewrite H0. clear H0.
  set (rows0 := map zero rows).
  set (texts := map coordinates (values (range_frame rows0))).
  assert (Htexts : forall c, In c texts -> contains "," c = true).
  { intros c Hc. unfold texts, rows0 in Hc. rewrite values_range_frame, map_map in Hc.
    apply in_map_iff in Hc as (r & <- & Hr). exact (proj1 (Hrows r Hr)). }
  assert (Hsep : separate_coordinates (range_frame rows0) (range_frame rows0)
                 = Done (range_frame
                           (map (fun r => fold_left (fun r c => separate_row c r) texts r)
                              rows0))).
  { unfold separate_coordinates. fold texts.
    rewrite (for_each_map_rows_in texts separate_step separate_row).
    - apply f_equal.
      exact (map_rows_labelled (fun r => fold_left (fun r c => separate_row c r) texts r)
               0 rows0).
    - intros c Hc s Hs. apply separate_step_rows; [exact Hs|now apply Htexts].
    - apply NoDup_index_range_frame. }
  rewrite Hsep. unfold cast_coordinates. rewrite values_range_frame.
  set (rows2 := map (fun r => fold_left (fun r c => separate_row c r) texts r) rows0).
  assert (Hrow2 : forall i r, nth_error rows i = Some r ->
            exists r2, nth_error rows2 i = Some r2
              /\ raw_cra r2 = raw_cra r /\ raw_price r2 = raw_price r
              /\ raw_latitude r2 = PyStr (fst (pieces_of (coordinates r)))
              /\ raw_longitude r2 = PyStr (snd (pieces_of (coordinates r)))).
  { intros i r Hr. unfold rows2, rows0. rewrite !nth_error_map, Hr. cbn [option_map].
    eexists. split; [reflexivity|].
    destruct (separate_rows_row texts (zero r)) as (Hc & Hp & _ & Hin & _).
    cbv zeta in *. rewrite Hc, Hp. do 2 (split; [reflexivity|]).
    apply Hin. unfold texts, rows0. rewrite values_range_frame, map_map.
    apply nth_error_In in Hr.
    change (coordinates (zero r)) with ((fun x => coordinates (zero x)) r).
    now apply in_map. }
  assert (Hin2 : forall r2, In r2 rows2 ->
            exists r, In r rows
              /\ raw_latitude r2 = PyStr (fst (pieces_of (coordinates r)))
              /\ raw_longitude r2 = PyStr (snd (pieces_of (coordinates r)))).
  { intros r2 Hr2. apply In_nth_error in Hr2 as (i & Hi).
    destruct (nth_error rows i) as [r|] eqn:Er.
    - destruct (Hrow2 i r Er) as (r2' & Hr2' & _ & _ & Hlat & Hlong).
      exists r. split; [now apply nth_error_In in Er|]. split; congruence.
    - exfalso. apply nth_error_None in Er.
      assert (i < List.length rows2)%nat by (apply nth_error_Some; congruence).
      unfold rows2, rows0 in *. rewrite !length_map in *. lia. }
  rewrite (astype_float_all (map raw_latitude rows2)).
  2:{ intros c Hc. apply in_map_iff in Hc as (r2 & <- & Hr2).
      destruct (Hin2 r2 Hr2) as (r & Hr & -> & _).
      destruct (Hrows r Hr) as (_ & x & y & Hx & Hy). now exists x. }
  cbn [bind]. rewrite (astype_float_all (map raw_longitude rows2)).
  2:{ intros c Hc. apply in_map_iff in Hc as (r2 & <- & Hr2).
      destruct (Hin2 r2 Hr2) as (r & Hr & _ & ->).
      destruct (Hrows r Hr) as (_ & x & y & Hx & Hy). now exists y. }
  cbn [bind]. rewrite range_frame_labelled, cast_rows_labelled, <- range_frame_labelled.
  eexists. split; [reflexivity|]. split.
  - unfold rows2, rows0. now rewrite !length_map.
  - intros i r Hr. destruct (Hrow2 i r Hr) as (r2 & Hr2 & Hc & Hp & Hlat & Hlong).
    rewrite nth_error_map, Hr2. cbn [option_map]. eexists. split; [reflexivity|].
    cbn [cra price latitude longitude]. rewrite Hlat, Hlong. cbn [cell_float].
    destruct (Hrows r (nth_error_In _ _ Hr)) as (_ & x & y & -> & ->).
    now repeat split.
Qed.

End CastFacts.

Lemma build_coordinates_casts_own_text_witness :
  exists out,
    build_coordinates Sample.text_length (range_frame Sample.raw_businesses)
    = Ok (range_frame out)
    /\ List.length out = 3%nat.
Proof.
  destruct (build_coordinates_casts_own_text Sample.text_length Sample.raw_businesses)
    as (out & Hrun & Hlen & _).
  - intros r Hr. split.
    + destruct Hr as [<-|[<-|[<-|[]]]]; reflexivity.
    + do 2 eexists. split; reflexivity.
  - exists out. split; assumption.
Defined.

(* ------------------------------------------------------------------ *)
(** ** The neighbourhood check and the cleaning *)

Lemma filter_none {A : Type} (f : A -> bool) (l : list A) :
  (forall x, In x l -> f x = false) -> filter f l = [].
Proof.
  induction l as [|a l IH]; intros H; [reflexivity|].
  cbn. rewrite (H a (or_introl eq_refl)). apply IH. intros x Hx. apply H. now right.
Qed.

Section CleaningFacts.

Context {Y S : Type}.
Variable cra_of : Y -> string.
Variable neighborhood_of : S -> string.

Lemma drop_not_found_values (yelp : frame Y) (r : Y) :
  In r (values (drop_not_found cra_of yelp)) <->
  In r (values yelp) /\ cra_of r <> "Not Found"%string.
Proof.
  unfold drop_not_found. rewrite values_range_frame, values_mask, filter_In.
  now rewrite negb_true_iff, String.eqb_neq.
Qed.

(** X12. When the check prints no neighbourhood other than ["Not Found"],
    the cleaning leaves a frame with the default index in which no
    business is outside every neighbourhood and every business has its
    neighbourhood in the demographics table: the check on the cleaned
    frame prints nothing. The businesses kept are in their order. *)
Theorem cleaning_leaves_matched_businesses (yelp : frame Y) (seattle_rent : frame S) :
  (forall x, In x (unmatched cra_of neighborhood_of yelp seattle_rent) ->
             x = "Not Found"%string) ->
  drop_not_found cra_of yelp
  = range_frame (filter (fun r => negb (String.eqb (cra_of r) "Not Found")) (values yelp))
  /\ (forall r, In r (values (drop_not_found cra_of yelp)) ->
        cra_of r <> "Not Found"%string
        /\ exists lr, In lr seattle_rent /\ neighborhood_of (snd lr) = cra_of r)
  /\ unmatched cra_of neighborhood_of (drop_not_found cra_of yelp) seattle_rent = [].
Proof.
  intros Hcheck.
  assert (Hmatched : forall r, In r (values (drop_not_found cra_of yelp)) ->
            existsb (String.eqb (cra_of r))
              (unique (map neighborhood_of (values seattle_rent))) = true).
  { intros r Hr. apply drop_not_found_values in Hr as [Hin Hnf].
    destruct (existsb _ _) eqn:Ex; [reflexivity|].
    contradiction Hnf. apply Hcheck. unfold unmatched. apply filter_In. split.
    - apply unique_In. now apply in_map.
    - now rewrite Ex. }
  split; [|split].
  - unfold drop_not_found. now rewrite values_mask.
  - intros r Hr. split; [now apply drop_not_found_values in Hr|].
    apply Hmatched in Hr. apply existsb_exists in Hr as (x & Hx & Ex).
    apply String.eqb_eq in Ex. subst x. rewrite unique_In in Hx.
    unfold values in Hx. rewrite map_map in Hx.
    apply in_map_iff in Hx as (lr & E & Hlr). now exists lr.
  - unfold unmatched. apply filter_none. intros x Hx.
    rewrite unique_In in Hx. apply in_map_iff in Hx as (r & <- & Hr).
    now rewrite (Hmatched r Hr).
Qed.

End CleaningFacts.

Lemma cleaning_leaves_matched_businesses_witness :
  drop_not_found cra (range_frame Sample.loaded_businesses)
  = range_frame Sample.businesses
  /\ unmatched cra neighborhood (drop_not_found cra (range_frame Sample.loaded_businesses))
       (range_frame Sample.demographics) = [].
Proof.
  destruct (cleaning_leaves_matched_businesses cra neighborhood
              (range_frame Sample.loaded_businesses) (range_frame Sample.demographics))
    as (Hdrop & _ & Hcheck).
  - intros x Hx. vm_compute in Hx. destruct Hx as [<-|[]]. reflexivity.
  - split; [|exact Hcheck]. rewrite Hdrop. reflexivity.
Defined.

(* ------------------------------------------------------------------ *)
(** ** [dollar_rating] on any table *)

(** X13. On any table a call of [dollar_rating] returns without raising
    and keeps the index and the order of the rows. The proportion it
    writes is in [[0, 1]]: [0] for a neighbourhood without a business,
    else Python's quotient of the number of its businesses of the tier by
    the number of its businesses. The rows written are those whose label
    is the label of a row of the neighbourhood, among them every row of
    the neighbourhood; any other row is the same row after the call. *)
Theorem dollar_rating_writes_by_label
    (seattle_df : frame seattle_row) (yelp_df : frame yelp_row) (hood : string) (t : tier) :
  exists proportion seattle_df',
    dollar_rating seattle_df yelp_df hood t = Ok (seattle_df', yelp_df)
    /\ hood_proportion yelp_df hood (tier_value t) = Ok proportion
    /\ (0 <= proportion <= 1)%Q
    /\ (let yelp_hood := values (mask (fun r => String.eqb (cra r) hood) yelp_df) in
        (yelp_hood = [] -> proportion = 0%Q)
        /\ (yelp_hood <> [] ->
            py_truediv (Z.of_nat (tier_count (tier_value t) yelp_hood))
              (Z.of_nat (List.length yelp_hood)) = Ok proportion))
    /\ index seattle_df' = index seattle_df
    /\ forall i l row, nth_error seattle_df i = Some (l, row) ->
         exists row',
           nth_error seattle_df' i = Some (l, row')
           /\ (neighborhood row = hood -> dollar row' t = proportion)
           /\ ((forall row2, In (l, row2) seattle_df -> neighborhood row2 <> hood) ->
               row' = row)
           /\ ((exists row2, In (l, row2) seattle_df /\ neighborhood row2 = hood) ->
               row' = set_dollar t proportion row).
Proof.
  destruct (hood_proportion_total yelp_df hood (tier_value t)) as (p & Hp & Hunit).
  exists p. eexists. unfold dollar_rating. rewrite Hp. cbn [bind].
  split; [reflexivity|]. split; [reflexivity|]. split; [exact Hunit|]. split; [|split].
  - cbv zeta. unfold hood_proportion in Hp.
    rewrite shape0_values, values_mask in Hp. unfold tier_count.
    rewrite shape0_values, !values_mask in Hp. rewrite values_mask.
    destruct (filter (fun r => String.eqb (cra r) hood) (values yelp_df)) as [|r rest] eqn:E.
    + split; [intros _; cbn in Hp; congruence|intros H; contradiction].
    + split; [discriminate|intros _; exact Hp].
  - apply index_set_loc.
  - intros i l row Hrow. unfold set_loc. rewrite nth_error_map, Hrow.
    cbn [option_map fst snd].
    set (hood_index := index (mask _ seattle_df)).
    assert (Hin : In (l, row) seattle_df) by (eapply nth_error_In; eassumption).
    assert (Hlabel : existsb (Z.eqb l) hood_index = true <->
                     exists row2, In (l, row2) seattle_df /\ neighborhood row2 = hood).
    { rewrite existsb_exists. split.
      - intros (l' & Hl' & El). apply Z.eqb_eq in El. subst l'.
        unfold hood_index, index, mask in Hl'.
        apply in_map_iff in Hl' as ([l2 row2] & El2 & Hin2). cbn in El2. subst l2.
        apply filter_In in Hin2 as [Hin2 Hn2]. cbn in Hn2. apply String.eqb_eq in Hn2.
        now exists row2.
      - intros (row2 & Hin2 & Hn2). exists l. split; [|apply Z.eqb_refl].
        unfold hood_index, index, mask.
        change l with (fst (l, row2)). apply in_map. apply filter_In. split; [exact Hin2|].
        cbn. now apply String.eqb_eq. }
    destruct (existsb (Z.eqb l) hood_index) eqn:Ex.
    + eexists. split; [reflexivity|]. split; [|split].
      * intros _. cbn. unfold tier_eqb. now rewrite Z.eqb_refl.
      * intros Hnone. destruct (proj1 Hlabel eq_refl) as (row2 & Hin2 & Hn2).
        now apply Hnone in Hin2.
      * reflexivity.
    + exists row. split; [reflexivity|]. split; [|split].
      * intros Hn. assert (false = true) by (apply Hlabel; now exists row).
        discriminate.
      * reflexivity.
      * intros Hex. apply Hlabel in Hex. discriminate.
Qed.

Lemma hood_proportion_counts (yelp_df : frame yelp_row) (hood : string) (dollar_tier : Z) :
  values (mask (fun r => String.eqb (cra r) hood) yelp_df) <> [] ->
  hood_proportion yelp_df hood dollar_tier
  = py_truediv
      (Z.of_nat (tier_count dollar_tier
                   (values (mask (fun r => String.eqb (cra r) hood) yelp_df))))
      (Z.of_nat (List.length (values (mask (fun r => String.eqb (cra r) hood) yelp_df)))).
Proof.
  intros Hne. unfold hood_proportion, tier_count.
  rewrite !shape0_values, !values_mask. rewrite values_mask in Hne.
  destruct (filter (fun r => String.eqb (cra r) hood) (values yelp_df)) as [|r rest];
    [contradiction|reflexivity].
Qed.

(** X14. For a neighbourhood that has a business, all of its businesses
    being of a tier in [1 .. 4], the four proportions that [dollar_rating]
    computes are each within [2^-53] of the exact share of the tier, the
    four shares add up to [1], and Python's sum of the four proportions is
    within [2^-50] of [1]. *)
Theorem hood_proportions_sum (yelp_df : frame yelp_row) (hood : string) :
  values (mask (fun r => String.eqb (cra r) hood) yelp_df) <> [] ->
  (forall r, In r (values (mask (fun r => String.eqb (cra r) hood) yelp_df)) ->
             1 <= price r <= 4) ->
  let yelp_hood := values (mask (fun r => String.eqb (cra r) hood) yelp_df) in
  let n := Pos.of_nat (List.length yelp_hood) in
  exists p1 p2 p3 p4,
    hood_proportion yelp_df hood 1 = Ok p1
    /\ hood_proportion yelp_df hood 2 = Ok p2
    /\ hood_proportion yelp_df hood 3 = Ok p3
    /\ hood_proportion yelp_df hood 4 = Ok p4
    /\ ((Z.of_nat (tier_count 1 yelp_hood) # n) + (Z.of_nat (tier_count 2 yelp_hood) # n)
        + (Z.of_nat (tier_count 3 yelp_hood) # n) + (Z.of_nat (tier_count 4 yelp_hood) # n)
        == 1)%Q
    /\ (Qabs (p1 - (Z.of_nat (tier_count 1 yelp_hood) # n)) <= 1 # 9007199254740992)%Q
    /\ (Qabs (p2 - (Z.of_nat (tier_count 2 yelp_hood) # n)) <= 1 # 9007199254740992)%Q
    /\ (Qabs (p3 - (Z.of_nat (tier_count 3 yelp_hood) # n)) <= 1 # 9007199254740992)%Q
    /\ (Qabs (p4 - (Z.of_nat (tier_count 4 yelp_hood) # n)) <= 1 # 9007199254740992)%Q
    /\ (Qabs (py_sum [p1; p2; p3; p4] - 1) <= 1 # 1125899906842624)%Q.
Proof.
  intros Hne Htiers. cbv zeta.
  rewrite !(hood_proportion_counts yelp_df hood _ Hne).
  set (yelp_hood := values (mask (fun r => String.eqb (cra r) hood) yelp_df)) in *.
  assert (Hpos : (0 < List.length yelp_hood)%nat)
    by (destruct yelp_hood; [contradiction|cbn; lia]).
  destruct (py_truediv_counts _ _ Hpos (tier_count_le 1 yelp_hood)) as (p1 & E1 & [P1 _] & A1).
  destruct (py_truediv_counts _ _ Hpos (tier_count_le 2 yelp_hood)) as (p2 & E2 & [P2 _] & A2).
  destruct (py_truediv_counts _ _ Hpos (tier_count_le 3 yelp_hood)) as (p3 & E3 & [P3 _] & A3).
  destruct (py_truediv_counts _ _ Hpos (tier_count_le 4 yelp_hood)) as (p4 & E4 & [P4 _] & A4).
  exists p1, p2, p3, p4. do 4 (split; [assumption|]).
  pose proof (tier_counts_total yelp_hood Htiers) as Hc.
  pose proof (exact_shares_total _ _ _ _ _ Hpos Hc) as Hq.
  do 5 (split; [assumption|]).
  apply (py_sum4_error
           (Z.of_nat (tier_count 1 yelp_hood) # Pos.of_nat (List.length yelp_hood))
           (Z.of_nat (tier_count 2 yelp_hood) # Pos.of_nat (List.length yelp_hood))
           (Z.of_nat (tier_count 3 yelp_hood) # Pos.of_nat (List.length yelp_hood))
           (Z.of_nat (tier_count 4 yelp_hood) # Pos.of_nat (List.length yelp_hood)));
    try assumption; unfold Qle; cbn [Qnum Qden]; lia.
Qed.

Lemma hood_proportions_sum_witness :
  exists p1 p2 p3 p4,
    hood_proportion (range_frame Sample.businesses) "Ballard" 1 = Ok p1
    /\ hood_proportion (range_frame Sample.businesses) "Ballard" 2 = Ok p2
    /\ hood_proportion (range_frame Sample.businesses) "Ballard" 3 = Ok p3
    /\ hood_proportion (range_frame Sample.businesses) "Ballard" 4 = Ok p4
    /\ (Qabs (py_sum [p1; p2; p3; p4] - 1) <= 1 # 1125899906842624)%Q.
Proof.
  destruct (hood_proportions_sum (range_frame Sample.businesses) "Ballard")
    as (p1 & p2 & p3 & p4 & H1 & H2 & H3 & H4 & _ & _ & _ & _ & _ & Hsum).
  - vm_compute. discriminate.
  - intros r Hr. vm_compute in Hr.
    destruct Hr as [<-|[<-|[]]]; vm_compute; split; discriminate.
  - exists p1, p2, p3, p4. repeat split; assumption.
Defined.

(* ------------------------------------------------------------------ *)
(** ** Labels and positions in [radius_dollar_proportion] *)

Section LabelsAndPositions.

Variable distance : coordinate -> coordinate -> Q.

Lemma within_loop_by_label (location : coordinate) (df : frame yelp_row) (radius : Q)
    (todo : list nat) :
  (forall i, In i todo -> exists lr, loc df (Z.of_nat i) = [lr]) ->
  forall acc,
    within_loop distance location df radius todo acc
    = Ok (acc ++ filter (fun i => match loc df (Z.of_nat i) with
                                  | [lr] => in_radius distance location radius (snd lr)
                                  | _ => false
                                  end) todo).
Proof.
  induction todo as [|i todo IH]; intros Hall acc.
  - cbn. now rewrite app_nil_r.
  - cbn [within_loop filter]. destruct (Hall i (or_introl eq_refl)) as (lr & Hlr).
    unfold loc_float. rewrite Hlr. cbn [bind]. unfold in_radius at 1.
    specialize (IH (fun k Hk => Hall k (or_intror Hk))).
    destruct (Qle_bool _ radius); rewrite IH; [now rewrite <- app_assoc|reflexivity].
Qed.

(** X15. On a frame in which each of the labels [0 .. n-1] is the label of
    one row, in whatever order, the call tests the row labelled [i] and
    then counts the row at position [i]: the proportion is taken over the
    rows at the positions [i] such that the row labelled [i] is within the
    radius. With the default index the two rows are the same. *)
Theorem proportion_counts_positions_of_labels
    (location : coordinate) (df : frame yelp_row) (radius : Q) (dollar_tier : Z) :
  (forall i, (i < shape0 df)%nat -> exists lr, loc df (Z.of_nat i) = [lr]) ->
  exists positions counted,
    within distance location df radius = Ok positions
    /\ (forall i lr, loc df (Z.of_nat i) = [lr] -> (i < shape0 df)%nat ->
          (In i positions <-> in_radius distance location radius (snd lr) = true))
    /\ iloc df positions = Ok counted
    /\ map Some counted = map (nth_error df) positions
    /\ radius_dollar_proportion distance location df radius dollar_tier
       = if Nat.eqb (List.length positions) 0 then Ok 0%Q
         else py_truediv
                (Z.of_nat (tier_count dollar_tier (values counted)))
                (Z.of_nat (List.length counted)).
Proof.
  intros Hall. unfold radius_dollar_proportion, within.
  rewrite within_loop_by_label by (intros i Hi; apply Hall; apply in_seq in Hi; lia).
  cbn [app bind].
  set (positions := filter _ (seq 0 (shape0 df))).
  destruct (iloc_values df positions) as (counted & Hiloc & Hmap).
  { apply Forall_forall. intros i Hi. apply filter_In in Hi as [Hi _].
    apply in_seq in Hi. lia. }
  exists positions, counted. split; [reflexivity|]. split; [|split; [|split]].
  - intros i lr Hlr Hi. unfold positions. rewrite filter_In, Hlr, in_seq.
    split; [tauto|]. intros H. split; [lia|exact H].
  - exact Hiloc.
  - exact Hmap.
  - unfold proportion_of. rewrite Hiloc. cbn [bind]. unfold tier_count.
    rewrite !shape0_values, values_mask. unfold values. now rewrite length_map.
Qed.

End LabelsAndPositions.

Lemma proportion_counts_positions_of_labels_witness :
  exists positions counted,
    within Sample.taxicab Sample.center
      [ (1, mk_yelp "Interbay" 1 2 0); (0, mk_yelp "Ballard" 2 (3 # 10) 0) ] 1
    = Ok positions
    /\ iloc [ (1, mk_yelp "Interbay" 1 2 0); (0, mk_yelp "Ballard" 2 (3 # 10) 0) ] positions
       = Ok counted
    /\ positions = [0%nat]
    /\ map (fun lr => cra (snd lr)) counted = ["Interbay"%string].
Proof.
  destruct (proportion_counts_positions_of_labels Sample.taxicab Sample.center
              [ (1, mk_yelp "Interbay" 1 2 0); (0, mk_yelp "Ballard" 2 (3 # 10) 0) ] 1 2)
    as (positions & counted & Hw & _ & Hi & _).
  - intros i Hi. cbn in Hi.
    destruct i as [|[|i]]; [eexists; reflexivity|eexists; reflexivity|lia].
  - exists positions, counted. split; [exact Hw|]. split; [exact Hi|].
    assert (E : positions = [0%nat]).
    { vm_compute in Hw. now injection Hw. }
    split; [exact E|]. subst positions. vm_compute in Hi. injection Hi as <-. reflexivity.
Defined.
